(** * Emerald Health: symptom analyzer and practitioner lookup

    A shallow embedding of [src/lib/ai-helpers.ts] (the [analyzeSymptoms]
    request/response logic) and of [src/ai/flows/find-practitioners.ts]
    (the [findPractitioners] lookup), together with the JavaScript built-ins
    the two functions rely on: [String.prototype.split], [trim], [includes],
    [toLowerCase] and [JSON.parse]. *)

From Stdlib Require Import List NArith Ascii String Bool Arith Lia QArith.
Import ListNotations.
Set Warnings "-register-all".
Open Scope N_scope.
Open Scope list_scope.

(** ** JavaScript strings

    A JavaScript string is a finite sequence of UTF-16 code units.  The
    built-ins below work on code units, exactly as ECMAScript specifies
    them. *)

Module JSString.

Abbreviation codeunit := N (only parsing).
Abbreviation jsstring := (list N) (only parsing).

(** Code unit of an ASCII character, and the string of an ASCII literal. *)
Definition ch (a : ascii) : codeunit := N_of_ascii a.
Definition js (s : string) : jsstring := map ch (list_ascii_of_string s).

(** The double quote, which a literal cannot hold. *)
Definition dquote : codeunit := 34.

Definition eqb (s t : jsstring) : bool :=
  if list_eq_dec N.eq_dec s t then true else false.

(** [s.startsWith(p)] *)
Fixpoint startsWith (p s : jsstring) : bool :=
  match p, s with
  | [], _ => true
  | _ :: _, [] => false
  | a :: p', b :: s' => (a =? b) && startsWith p' s'
  end.

(** [s.includes(sub)]: [sub] occurs at some position of [s]. *)
Fixpoint includes (s sub : jsstring) : bool :=
  startsWith sub s ||
  match s with
  | [] => false
  | _ :: s' => includes s' sub
  end.

(** [s.split(sep)] for a string separator.  The scan goes left to right;
    on a match at the current position the piece collected so far is
    emitted and the scan resumes after the separator ([skip] counts the
    separator's code units still to be passed over).  [piece] is the
    current piece, reversed. *)
Fixpoint split_scan (sep : jsstring) (skip : nat) (piece s : jsstring)
  : list jsstring :=
  match s with
  | [] => [rev piece]
  | c :: s' =>
      match skip with
      | S k => split_scan sep k piece s'
      | O =>
          if startsWith sep s
          then rev piece :: split_scan sep (List.length sep - 1) [] s'
          else split_scan sep 0 (c :: piece) s'
      end
  end.

(** With the empty separator the string is cut into its code units. *)
Definition split (s sep : jsstring) : list jsstring :=
  match sep with
  | [] => map (fun c => [c]) s
  | _ :: _ => split_scan sep 0 [] s
  end.

(** ECMAScript's WhiteSpace and LineTerminator code points, the ones
    [trim] strips: TAB, LF, VT, FF, CR, SP, NBSP, the other space
    separators (category Zs), LS, PS and the byte order mark. *)
Definition isWhiteSpace (c : codeunit) : bool :=
  ((9 <=? c) && (c <=? 13)) || (c =? 32) || (c =? 160) || (c =? 5760)
  || ((8192 <=? c) && (c <=? 8202)) || (c =? 8232) || (c =? 8233)
  || (c =? 8239) || (c =? 8287) || (c =? 12288) || (c =? 65279).

Fixpoint trimStart (s : jsstring) : jsstring :=
  match s with
  | [] => []
  | c :: s' => if isWhiteSpace c then trimStart s' else s
  end.

Definition trimEnd (s : jsstring) : jsstring := rev (trimStart (rev s)).

(** [s.trim()] *)
Definition trim (s : jsstring) : jsstring := trimEnd (trimStart s).

(** Lower-casing of one Basic Latin code unit: [A]..[Z] move to [a]..[z],
    every other code unit below 128 is its own lower case. *)
Definition isASCII (c : codeunit) : bool := c <? 128.
Definition lowerASCII (c : codeunit) : codeunit :=
  if (65 <=? c) && (c <=? 90) then c + 32 else c.

(** [String.prototype.toLowerCase] follows the Unicode default case
    conversion, whose tables are no part of this repository.  It is taken
    as an interface: a function on strings of which two facts are used,
    its value on Basic Latin text and its idempotence. *)
Class CaseConversion := {
  toLowerCase : jsstring -> jsstring;
  toLowerCase_ascii :
    forall s, forallb isASCII s = true -> toLowerCase s = map lowerASCII s;
  toLowerCase_idem :
    forall s, toLowerCase (toLowerCase s) = toLowerCase s
}.

End JSString.

(** ** JavaScript values and [JSON.parse] *)

Module JSON.
Import JSString.

(** The values [JSON.parse] can produce, and [undefined], which a
    destructuring yields for a property that is not there.  A number is
    kept as its lexeme: no arithmetic is ever done on it. *)
Inductive JSValue : Type :=
| JSUndefined
| JSNull
| JSBool (b : bool)
| JSNumber (lexeme : jsstring)
| JSString (s : jsstring)
| JSArray (items : list JSValue)
| JSObject (props : list (jsstring * JSValue)).

(** Outcome of a parse.  [OutOfFuel] is an artefact of the recursion on
    a fuel counter; [JSON_parse_total] shows it never comes out of
    [JSON_parse]. *)
Inductive parsed (A : Type) : Type :=
| Parsed (a : A)
| SyntaxError
| OutOfFuel.
Arguments Parsed {A} a.
Arguments SyntaxError {A}.
Arguments OutOfFuel {A}.

(** JSON white space: space, TAB, LF, CR (fewer than [trim] strips). *)
Definition isJSONSpace (c : codeunit) : bool :=
  (c =? 32) || (c =? 9) || (c =? 10) || (c =? 13).

Fixpoint skip_ws (s : jsstring) : jsstring :=
  match s with
  | [] => []
  | c :: s' => if isJSONSpace c then skip_ws s' else s
  end.

Definition isDigit (c : codeunit) : bool := (48 <=? c) && (c <=? 57).

Definition hexval (c : codeunit) : option N :=
  if isDigit c then Some (c - 48)
  else if (97 <=? c) && (c <=? 102) then Some (c - 87)
  else if (65 <=? c) && (c <=? 70) then Some (c - 55)
  else None.

Definition hex4 (a b c d : codeunit) : option codeunit :=
  match hexval a, hexval b, hexval c, hexval d with
  | Some x, Some y, Some z, Some w => Some (((x * 16 + y) * 16 + z) * 16 + w)
  | _, _, _, _ => None
  end.

(** The single-character escapes: quote, backslash, slash, b f n r t. *)
Definition escape (c : codeunit) : option codeunit :=
  if c =? 34 then Some 34
  else if c =? 92 then Some 92
  else if c =? 47 then Some 47
  else if c =? 98 then Some 8
  else if c =? 102 then Some 12
  else if c =? 110 then Some 10
  else if c =? 114 then Some 13
  else if c =? 116 then Some 9
  else None.

(** The characters of a string literal after its opening quote, decoded,
    with the input left after the closing quote.  Control characters
    below U+0020 must be escaped. *)
Fixpoint lex_string (s : jsstring) : option (jsstring * jsstring) :=
  match s with
  | [] => None
  | c :: s1 =>
      if c =? 34 then Some ([], s1)
      else if c =? 92 then
        match s1 with
        | [] => None
        | e :: s2 =>
            if e =? 117 then
              match s2 with
              | h1 :: h2 :: h3 :: h4 :: s3 =>
                  match hex4 h1 h2 h3 h4, lex_string s3 with
                  | Some u, Some (str, rest) => Some (u :: str, rest)
                  | _, _ => None
                  end
              | _ => None
              end
            else
              match escape e, lex_string s2 with
              | Some u, Some (str, rest) => Some (u :: str, rest)
              | _, _ => None
              end
        end
      else if c <? 32 then None
      else
        match lex_string s1 with
        | Some (str, rest) => Some (c :: str, rest)
        | None => None
        end
  end.

(** The longest run of digits at the head of the input. *)
Fixpoint digits (s : jsstring) : jsstring * jsstring :=
  match s with
  | c :: s' =>
      if isDigit c then let (ds, rest) := digits s' in (c :: ds, rest)
      else ([], s)
  | [] => ([], [])
  end.

(** A number: an optional minus; then 0, or a digit 1-9 and more digits;
    then optionally a point and one or more digits; then optionally e or E,
    an optional sign and one or more digits. *)
Definition lex_int (s : jsstring) : option (jsstring * jsstring) :=
  match s with
  | c :: s' =>
      if c =? 48 then Some ([c], s')
      else if isDigit c then let (ds, rest) := digits s' in Some (c :: ds, rest)
      else None
  | [] => None
  end.

Definition lex_frac (s : jsstring) : option (jsstring * jsstring) :=
  match s with
  | c :: s' =>
      if c =? 46 then
        match digits s' with
        | ([], _) => None
        | (ds, rest) => Some (c :: ds, rest)
        end
      else Some ([], s)
  | [] => Some ([], [])
  end.

Definition lex_exp (s : jsstring) : option (jsstring * jsstring) :=
  match s with
  | c :: s' =>
      if (c =? 101) || (c =? 69) then
        let (sign, s'') :=
          match s' with
          | d :: t => if (d =? 43) || (d =? 45) then ([d], t) else ([], s')
          | [] => ([], [])
          end in
        match digits s'' with
        | ([], _) => None
        | (ds, rest) => Some (c :: sign ++ ds, rest)
        end
      else Some ([], s)
  | [] => Some ([], [])
  end.

Definition lex_number (s : jsstring) : option (jsstring * jsstring) :=
  let (sign, s0) :=
    match s with
    | c :: s' => if c =? 45 then ([c], s') else ([], s)
    | [] => ([], [])
    end in
  match lex_int s0 with
  | Some (i, s1) =>
      match lex_frac s1 with
      | Some (f, s2) =>
          match lex_exp s2 with
          | Some (e, s3) => Some (sign ++ i ++ f ++ e, s3)
          | None => None
          end
      | None => None
      end
  | None => None
  end.

(** [true], [false], [null] *)
Definition lex_literal (s : jsstring) : option (JSValue * jsstring) :=
  if startsWith (js "true") s then Some (JSBool true, skipn 4 s)
  else if startsWith (js "false") s then Some (JSBool false, skipn 5 s)
  else if startsWith (js "null") s then Some (JSNull, skipn 4 s)
  else None.

(** Defining a property of an object under construction: a repeated name
    overwrites the earlier value and keeps its place. *)
Fixpoint setProperty (props : list (jsstring * JSValue)) (k : jsstring)
  (v : JSValue) : list (jsstring * JSValue) :=
  match props with
  | [] => [(k, v)]
  | (k', v') :: rest =>
      if JSString.eqb k' k then (k', v) :: rest
      else (k', v') :: setProperty rest k v
  end.

Fixpoint getProperty (props : list (jsstring * JSValue)) (k : jsstring)
  : JSValue :=
  match props with
  | [] => JSUndefined
  | (k', v') :: rest => if JSString.eqb k' k then v' else getProperty rest k
  end.

(** Recursive descent over the JSON grammar.  [parse_value] reads one
    value after optional white space; [parse_elements] reads the elements
    of an array after its bracket, [parse_members] the members of an object
    after its brace; [acc] holds what was read so far. *)
Fixpoint parse_value (fuel : nat) (s : jsstring)
  : parsed (JSValue * jsstring) :=
  match fuel with
  | O => OutOfFuel
  | S f =>
      match skip_ws s with
      | [] => SyntaxError
      | c :: s1 =>
          if c =? 123 then
            match skip_ws s1 with
            | d :: s2 =>
                if d =? 125 then Parsed (JSObject [], s2)
                else parse_members f [] s1
            | [] => SyntaxError
            end
          else if c =? 91 then
            match skip_ws s1 with
            | d :: s2 =>
                if d =? 93 then Parsed (JSArray [], s2)
                else parse_elements f [] s1
            | [] => SyntaxError
            end
          else if c =? 34 then
            match lex_string s1 with
            | Some (str, rest) => Parsed (JSString str, rest)
            | None => SyntaxError
            end
          else if (c =? 45) || isDigit c then
            match lex_number (c :: s1) with
            | Some (n, rest) => Parsed (JSNumber n, rest)
            | None => SyntaxError
            end
          else
            match lex_literal (c :: s1) with
            | Some r => Parsed r
            | None => SyntaxError
            end
      end
  end
with parse_elements (fuel : nat) (acc : list JSValue) (s : jsstring)
  : parsed (JSValue * jsstring) :=
  match fuel with
  | O => OutOfFuel
  | S f =>
      match parse_value f s with
      | Parsed (v, s1) =>
          match skip_ws s1 with
          | c :: s2 =>
              if c =? 44 then parse_elements f (v :: acc) s2
              else if c =? 93 then Parsed (JSArray (rev (v :: acc)), s2)
              else SyntaxError
          | [] => SyntaxError
          end
      | SyntaxError => SyntaxError
      | OutOfFuel => OutOfFuel
      end
  end
with parse_members (fuel : nat) (acc : list (jsstring * JSValue))
  (s : jsstring) : parsed (JSValue * jsstring) :=
  match fuel with
  | O => OutOfFuel
  | S f =>
      match skip_ws s with
      | q :: s1 =>
          if q =? 34 then
            match lex_string s1 with
            | Some (k, s2) =>
                match skip_ws s2 with
                | c :: s3 =>
                    if c =? 58 then
                      match parse_value f s3 with
                      | Parsed (v, s4) =>
                          match skip_ws s4 with
                          | d :: s5 =>
                              if d =? 44
                              then parse_members f (setProperty acc k v) s5
                              else if d =? 125
                              then Parsed (JSObject (setProperty acc k v), s5)
                              else SyntaxError
                          | [] => SyntaxError
                          end
                      | SyntaxError => SyntaxError
                      | OutOfFuel => OutOfFuel
                      end
                    else SyntaxError
                | [] => SyntaxError
                end
            | None => SyntaxError
            end
          else SyntaxError
      | [] => SyntaxError
      end
  end.

(** [JSON.parse(text)]: one value, white space around it, nothing else. *)
Definition JSON_parse (text : jsstring) : parsed JSValue :=
  match parse_value (2 * List.length text + 1) text with
  | Parsed (v, rest) =>
      match skip_ws rest with
      | [] => Parsed v
      | _ :: _ => SyntaxError
      end
  | SyntaxError => SyntaxError
  | OutOfFuel => OutOfFuel
  end.

(** *** Notions for the statements about the parser *)

(** The code units a JSON value can end with: a closing brace, bracket or
    quote, a digit, or the last letter of [true], [false], [null]. *)
Definition isValueEnd (x : codeunit) : bool :=
  (x =? 125) || (x =? 93) || (x =? 34) || isDigit x || (x =? 101) || (x =? 108).

(** [leaves s r]: [r] is what is left of [s] after a prefix. *)
Definition leaves (s r : jsstring) : Prop := exists p, s = p ++ r.

(** [consumes s r]: a non-empty prefix of [s] was read, ending in a code
    unit a value can end with, and [r] is left. *)
Definition consumes (s r : jsstring) : Prop :=
  exists p x, s = p ++ x :: r /\ isValueEnd x = true.

(** [endsInDigit l]: [l] is not empty and its last code unit is a digit. *)
Definition endsInDigit (l : jsstring) : Prop :=
  exists q x, l = q ++ [x] /\ isDigit x = true.

(** Moving a trailing code unit from the input to what is left. *)
Definition push {A} (a : codeunit) (o : option (A * jsstring))
  : option (A * jsstring) :=
  match o with
  | Some (x, r) => Some (x, r ++ [a])
  | None => None
  end.

Definition pushP {A} (a : codeunit) (o : parsed (A * jsstring))
  : parsed (A * jsstring) :=
  match o with
  | Parsed (x, r) => Parsed (x, r ++ [a])
  | SyntaxError => SyntaxError
  | OutOfFuel => OutOfFuel
  end.

End JSON.

(** ** The symptom analyzer, [src/lib/ai-helpers.ts] *)

Module Analyzer.
Import JSString JSON.

(** What the code can throw or reject with. *)
Inductive Exn : Type :=
| Error (message : jsstring)
| JSONSyntaxError
| TypeError
| Rejection (reason : jsstring).

(** A computation that returns or throws. *)
Definition completion (A : Type) : Type := (Exn + A)%type.
Definition ret {A} (a : A) : completion A := inr a.
Definition throw {A} (e : Exn) : completion A := inl e.
Definition bind {A B} (m : completion A) (k : A -> completion B)
  : completion B :=
  match m with
  | inl e => inl e
  | inr a => k a
  end.
Definition try_catch {A} (body : completion A) (handler : Exn -> completion A)
  : completion A :=
  match body with
  | inl e => handler e
  | inr a => inr a
  end.

Notation "x <- m ;; k" := (bind m (fun x => k))
  (at level 61, m at next level, right associativity).

(** *** Module initialisation *)

(** The one configuration value the module reads. *)
Record ProcessEnv := {
  NEXT_PUBLIC_GOOGLE_AI_API_KEY : option jsstring
}.

(** [new GoogleGenerativeAI(key)] *)
Record GoogleGenerativeAI := {
  apiKey : jsstring
}.

(** The statements at the top of the module: the guard on the key, then
    the construction of [genAI].  An absent key and the empty string are
    the two falsy values the variable can hold. *)
Definition loadModule (env : ProcessEnv) : completion GoogleGenerativeAI :=
  match NEXT_PUBLIC_GOOGLE_AI_API_KEY env with
  | None => throw (Error (js "GOOGLE_AI_API_KEY is not set"))
  | Some [] => throw (Error (js "GOOGLE_AI_API_KEY is not set"))
  | Some (c :: k) => ret {| apiKey := c :: k |}
  end.

(** *** Data *)

Record SymptomAnalysisInput := {
  symptoms : jsstring;
  photoDataUri : option jsstring
}.

(** The fields are declared [boolean], [string], [boolean] in the source;
    at run time they hold whatever the destructuring delivered. *)
Record SymptomAnalysisOutput := {
  isSerious : JSValue;
  explanation : JSValue;
  suggestImmediateAction : JSValue
}.

Record GenerationConfig := {
  temperature : Q;
  topP : Q;
  topK : N;
  maxOutputTokens : N
}.

(** What reaches the generation endpoint on one [generateContent] call. *)
Record GenerateContentRequest := {
  req_apiKey : jsstring;
  req_model : jsstring;
  req_generationConfig : GenerationConfig;
  req_contents : jsstring
}.

(** The external service: [generateContent], [result.response] and
    [response.text()] taken together, returning the text or rejecting. *)
Definition TextGenerationClient : Type :=
  GenerateContentRequest -> completion jsstring.

(** *** Request *)

Definition generationConfig : GenerationConfig :=
  {| temperature := 9 # 10; topP := 95 # 100; topK := 64;
     maxOutputTokens := 8192 |}.

(** The template literal, with [input.symptoms] spliced in. *)
Definition prompt (input : SymptomAnalysisInput) : jsstring :=
  js "As a medical expert, analyze these symptoms concisely and determine if they indicate a potentially serious condition requiring immediate attention.

Symptoms: " ++ symptoms input ++ js "

First, determine:
1. If the condition is potentially serious (true/false)
2. If immediate medical attention is recommended (true/false)

Then, provide a brief explanation in this format:

# Likely Cause
[One clear sentence about the most likely cause]

# What You Should Do
- [One specific action recommendation]
- [Any immediate steps to take at home, if applicable]

# When to Seek Help
- [1-2 specific warning signs that would require medical attention]

Keep the explanation very concise and action-oriented. Use simple, clear language.

Your response should be split into two parts:
1. A JSON object with just the boolean flags:
{
  " ++ dquote :: js "isSerious" ++ dquote :: js ": boolean,
  " ++ dquote :: js "suggestImmediateAction" ++ dquote :: js ": boolean
}

2. The markdown formatted explanation as plain text.

Separate these with three dashes (---) on a new line.".

(** [genAI.getGenerativeModel(...)] followed by [generateContent(prompt)]. *)
Definition request (genAI : GoogleGenerativeAI) (input : SymptomAnalysisInput)
  : GenerateContentRequest :=
  {| req_apiKey := apiKey genAI;
     req_model := js "gemini-2.5-flash";
     req_generationConfig := generationConfig;
     req_contents := prompt input |}.

(** *** Response *)

Definition delimiter : jsstring := js "---".

(** Reading a named property off a parsed value, for a name that is
    neither an index nor defined on a built-in prototype: only an object
    can have it. *)
Definition member (v : JSValue) (name : jsstring) : JSValue :=
  match v with
  | JSObject props => getProperty props name
  | _ => JSUndefined
  end.

(** [JSON.parse] as the [try] block sees it. *)
Definition parseJSON (text : jsstring) : completion JSValue :=
  match JSON_parse text with
  | Parsed v => ret v
  | SyntaxError => throw JSONSyntaxError
  | OutOfFuel => throw JSONSyntaxError
  end.

(** The body of the [try] block: split, trim, parse, destructure. *)
Definition tryParse (text : jsstring) : completion SymptomAnalysisOutput :=
  match map trim (split text delimiter) with
  | [] => throw JSONSyntaxError
  | jsonPart :: rest =>
      let markdownPart :=
        match rest with
        | [] => JSUndefined
        | m :: _ => JSString m
        end in
      v <- parseJSON jsonPart ;;
      match v with
      | JSNull | JSUndefined => throw TypeError
      | _ =>
          ret {| isSerious := member v (js "isSerious");
                 explanation := markdownPart;
                 suggestImmediateAction :=
                   member v (js "suggestImmediateAction") |}
      end
  end.

Section WithCaseConversion.
Context {CC : CaseConversion}.

(** The [catch] block: keyword search in the lower-cased text. *)
Definition fallback (text : jsstring) : SymptomAnalysisOutput :=
  {| isSerious :=
       JSBool (includes (toLowerCase text) (js "serious")
               || includes (toLowerCase text) (js "severe"));
     explanation := JSString text;
     suggestImmediateAction :=
       JSBool (includes (toLowerCase text) (js "immediate")
               || includes (toLowerCase text) (js "emergency")) |}.

(** The [try]/[catch] statement on the response text. *)
Definition interpret (text : jsstring) : completion SymptomAnalysisOutput :=
  try_catch (tryParse text) (fun _ => ret (fallback text)).

(** [analyzeSymptoms], given the module's [genAI] and the service. *)
Definition analyzeSymptoms (client : TextGenerationClient)
  (genAI : GoogleGenerativeAI) (input : SymptomAnalysisInput)
  : completion SymptomAnalysisOutput :=
  text <- client (request genAI input) ;;
  interpret text.

(** A process from start to one call: load the module, then analyze. *)
Definition run (client : TextGenerationClient) (env : ProcessEnv)
  (input : SymptomAnalysisInput) : completion SymptomAnalysisOutput :=
  genAI <- loadModule env ;;
  analyzeSymptoms client genAI input.

End WithCaseConversion.

(** *** Notions for the statements about the analyzer *)

Definition isBoolean (v : JSValue) : bool :=
  match v with
  | JSBool _ => true
  | _ => false
  end.

Definition isString (v : JSValue) : bool :=
  match v with
  | JSString _ => true
  | _ => false
  end.

Definition isNonEmptyString (v : JSValue) : bool :=
  match v with
  | JSString (_ :: _) => true
  | _ => false
  end.

(** The first piece of the split: the text up to the first delimiter. *)
Definition jsonSegment (text : jsstring) : jsstring :=
  hd [] (split text delimiter).

End Analyzer.

(** ** The practitioner lookup, [src/ai/flows/find-practitioners.ts] *)

Module Practitioners.
Import JSString.

Record Practitioner := {
  name : jsstring;
  specialty : jsstring;
  address : jsstring;
  phone : jsstring;
  isHospital : bool
}.

(** [locationQuery] is declared a string; a caller can leave it out. *)
Record FindPractitionersInput := {
  locationQuery : option jsstring
}.

Record FindPractitionersOutput := {
  practitioners : list Practitioner
}.

Definition mk (n s a p : string) (h : bool) : Practitioner :=
  {| name := js n; specialty := js s; address := js a; phone := js p;
     isHospital := h |}.

(** The three entries of [datasets]. *)
Definition dublin : list Practitioner :=
  [ mk "Grand Canal Medical Clinic" "General Practitioner"
       "21 Grand Canal Street Upper, Dublin 4, D04" "+353 1 555 2143" false;
    mk "St. Stephen's Green Family Practice" "General Practitioner"
       "8 Harcourt Street, Dublin 2, D02" "+353 1 555 0087" false;
    mk "Dublin City Cardiology Centre" "Cardiology"
       "45 Gardiner Street Upper, Dublin 1, D01" "+353 1 555 7321" false;
    mk "Mater Misericordiae University Hospital"
       "Emergency & General Hospital"
       "Eccles St, Phibsborough, Dublin 7, D07" "+353 1 803 2000" true ].

Definition cork : list Practitioner :=
  [ mk "Lee Side Family Practice" "General Practitioner"
       "14 Washington Street, Cork City, T12" "+353 21 555 6612" false;
    mk "Cork Women's Health Clinic" "Women's Health"
       "3 Patrick's Quay, Cork City, T12" "+353 21 555 7741" false;
    mk "Cork University Hospital" "Emergency & General Hospital"
       "Wilton, Cork, T12" "+353 21 492 2000" true ].

Definition galway : list Practitioner :=
  [ mk "Eyre Square Medical Practice" "General Practitioner"
       "12 Eyre Square, Galway, H91" "+353 91 555 1020" false;
    mk "Galway Respiratory Clinic" "Respiratory Medicine"
       "College Rd, Galway, H91" "+353 91 555 3344" false;
    mk "University Hospital Galway" "Emergency & General Hospital"
       "Newcastle Rd, Galway, H91" "+353 91 544 544" true ].

(** [group[i]] on one of the three lists; every index the code uses is in
    range, so the record standing for [undefined] is never delivered. *)
Definition noPractitioner : Practitioner :=
  {| name := []; specialty := []; address := []; phone := [];
     isHospital := false |}.
Definition at_ (group : list Practitioner) (i : nat) : Practitioner :=
  nth i group noPractitioner.

(** The default mixed sample. *)
Definition mixedSample : list Practitioner :=
  [ at_ dublin 0; at_ cork 0; at_ galway 0; at_ dublin 2; at_ cork 2 ].

(** [pick], on the lower-cased location. *)
Definition pick (location : jsstring) : list Practitioner :=
  if includes location (js "dublin") then dublin
  else if includes location (js "cork") then cork
  else if includes location (js "galway") then galway
  else mixedSample.

(** [input.locationQuery || 'Ireland']: an absent query and the empty
    string are falsy. *)
Definition orIreland (q : option jsstring) : jsstring :=
  match q with
  | None => js "Ireland"
  | Some [] => js "Ireland"
  | Some (c :: s) => c :: s
  end.

Section WithCaseConversion.
Context {CC : CaseConversion}.

Definition location (input : FindPractitionersInput) : jsstring :=
  toLowerCase (orIreland (locationQuery input)).

Definition findPractitioners (input : FindPractitionersInput)
  : FindPractitionersOutput :=
  {| practitioners := pick (location input) |}.

End WithCaseConversion.

(** *** Notions for the statements about the lookup *)

(** Equality of records and of result lists, as a test. *)
Definition Practitioner_eqb (p q : Practitioner) : bool :=
  JSString.eqb (name p) (name q)
  && JSString.eqb (specialty p) (specialty q)
  && JSString.eqb (address p) (address q)
  && JSString.eqb (phone p) (phone q)
  && Bool.eqb (isHospital p) (isHospital q).

Fixpoint practitioners_eqb (l m : list Practitioner) : bool :=
  match l, m with
  | [], [] => true
  | p :: l', q :: m' => Practitioner_eqb p q && practitioners_eqb l' m'
  | _, _ => false
  end.

End Practitioners.

(** ** Example inputs

    The inputs on which the properties below are evaluated. *)

Module Examples.
Import JSString JSON Analyzer Practitioners.

(** The verdict of the spec's round-trip example. *)
Definition verdictJSON : jsstring :=
  js "{" ++ dquote :: js "isSerious" ++ dquote :: js ":true,"
  ++ dquote :: js "suggestImmediateAction" ++ dquote :: js ":false}".

Definition verdictSegment : jsstring := verdictJSON ++ js "
".

Definition markdownSegment : jsstring := js "
# Likely Cause
...".

Definition exampleGenAI : GoogleGenerativeAI := {| apiKey := js "test-key" |}.

Definition exampleInput : SymptomAnalysisInput :=
  {| symptoms := js "persistent cough and mild fever";
     photoDataUri := None |}.

(** A service that answers every request with the same text. *)
Definition replying (text : jsstring) : TextGenerationClient :=
  fun _ => ret text.

(** Responses on which the [try] block returns although the format is not
    the expected one. *)
Definition onlyJSONResponse : jsstring :=
  js "{" ++ dquote :: js "isSerious" ++ dquote :: js ":false,"
  ++ dquote :: js "suggestImmediateAction" ++ dquote :: js ":false,"
  ++ dquote :: js "note" ++ dquote :: js ":"
  ++ dquote :: js "go to the emergency room if it gets worse"
  ++ dquote :: js "}".

Definition wrongShapeResponse : jsstring :=
  js "{" ++ dquote :: js "serious" ++ dquote :: js ":true,"
  ++ dquote :: js "immediate" ++ dquote :: js ":true}
---
# Likely Cause
Possible emergency.".

(** A markdown segment with a horizontal rule in it. *)
Definition ruledMarkdown : jsstring := js "
# Likely Cause
A common cold.
---
# When to Seek Help
- Fever above 39 degrees".

(** The composition the spec describes, for city groups [A], [B], [C]:
    index 0 of each, then index 2 of [A] and index 2 of [C]. *)
Definition specSample (A B C : list Practitioner) : list Practitioner :=
  [ at_ A 0; at_ B 0; at_ C 0; at_ A 2; at_ C 2 ].

Definition groups : list (list Practitioner) := [dublin; cork; galway].

Definition query (q : string) : FindPractitionersInput :=
  {| locationQuery := Some (js q) |}.

End Examples.

(** ** The symptom checker page, the caller of [analyzeSymptoms]

    The handlers of [SymptomCheckerPage]: the form schema, [onSubmit],
    [handleImageChange] with the reader's [onloadend], and
    [parseExplanation], through which the explanation is displayed. *)

From Stdlib Require Import ZArith.

Module SymptomCheckerPage.
Import JSString JSON Analyzer.

(** [s.indexOf(sub)]: the position of the first occurrence, or -1. *)
Fixpoint indexOf_from (sub s : jsstring) (i : Z) : Z :=
  if startsWith sub s then i
  else match s with
       | [] => (-1)%Z
       | _ :: s' => indexOf_from sub s' (i + 1)%Z
       end.

Definition indexOf (s sub : jsstring) : Z := indexOf_from sub s 0%Z.

(** [s.substring(start)]: [start] is clamped to the string. *)
Definition substring (s : jsstring) (start : Z) : jsstring :=
  skipn (Z.to_nat (Z.min (Z.max start 0) (Z.of_nat (List.length s)))) s.

(** [items.indexOf(x)] for a string [x]: strict equality with an element. *)
Fixpoint arrayIndexOf (items : list JSValue) (x : jsstring) (i : Z) : Z :=
  match items with
  | [] => (-1)%Z
  | JSString s :: rest =>
      if JSString.eqb s x then i else arrayIndexOf rest x (i + 1)%Z
  | _ :: rest => arrayIndexOf rest x (i + 1)%Z
  end.

Definition likelyCause : jsstring := js "# Likely Cause".

(** [explanation.indexOf('# Likely Cause')] on whatever value the
    explanation holds at run time: strings and arrays have the method,
    on anything else the call throws. *)
Definition explanation_indexOf (explanation : JSValue) : completion Z :=
  match explanation with
  | JSString s => ret (indexOf s likelyCause)
  | JSArray items => ret (arrayIndexOf items likelyCause 0%Z)
  | _ => throw TypeError
  end.

(** [explanation.substring(start)]: only a string has the method. *)
Definition explanation_substring (explanation : JSValue) (start : Z)
  : completion JSValue :=
  match explanation with
  | JSString s => ret (JSString (substring s start))
  | _ => throw TypeError
  end.

Definition parseExplanation (explanation : JSValue) : completion JSValue :=
  try_catch
    (markdownStart <- explanation_indexOf explanation ;;
     if (markdownStart =? -1)%Z then ret explanation
     else explanation_substring explanation markdownStart)
    (fun _ => ret explanation).

(** *** The form schema *)

Definition minLengthMessage : jsstring :=
  js "Please describe your symptoms in at least 10 characters.".

(** [z.string().min(10, ...)] on the text of the field: the length is
    counted in code units, nothing is trimmed. *)
Definition symptomCheckerSchema (symptomsField : jsstring)
  : jsstring + jsstring :=
  if (List.length symptomsField <? 10)%nat then inl minLengthMessage
  else inr symptomsField.

(** *** State and handlers *)

Record Toast := {
  variant : jsstring;
  title : jsstring;
  description : jsstring
}.

Definition fileTooLarge : Toast :=
  {| variant := js "destructive";
     title := js "File too large";
     description := js "Please upload an image smaller than 10MB." |}.

Definition analysisFailed : Toast :=
  {| variant := js "destructive";
     title := js "Analysis Failed";
     description :=
       js "An error occurred while analyzing symptoms. Please try again later." |}.

(** The three [useState] cells, the toasts shown and the errors written
    to the console, oldest first. *)
Record PageState := {
  analysis : option SymptomAnalysisOutput;
  isLoading : bool;
  imagePreview : option jsstring;
  toasts : list Toast;
  consoleErrors : list Exn
}.

Definition initialState : PageState :=
  {| analysis := None; isLoading := false; imagePreview := None;
     toasts := []; consoleErrors := [] |}.

Definition setAnalysis (a : option SymptomAnalysisOutput) (st : PageState) :=
  {| analysis := a; isLoading := isLoading st;
     imagePreview := imagePreview st; toasts := toasts st;
     consoleErrors := consoleErrors st |}.

Definition setIsLoading (b : bool) (st : PageState) :=
  {| analysis := analysis st; isLoading := b;
     imagePreview := imagePreview st; toasts := toasts st;
     consoleErrors := consoleErrors st |}.

Definition setImagePreview (u : option jsstring) (st : PageState) :=
  {| analysis := analysis st; isLoading := isLoading st;
     imagePreview := u; toasts := toasts st;
     consoleErrors := consoleErrors st |}.

Definition toast (t : Toast) (st : PageState) :=
  {| analysis := analysis st; isLoading := isLoading st;
     imagePreview := imagePreview st; toasts := toasts st ++ [t];
     consoleErrors := consoleErrors st |}.

Definition console_error (e : Exn) (st : PageState) :=
  {| analysis := analysis st; isLoading := isLoading st;
     imagePreview := imagePreview st; toasts := toasts st;
     consoleErrors := consoleErrors st ++ [e] |}.

(** A file of the input: its size in bytes and what
    [FileReader.readAsDataURL] leaves in [reader.result] when the read
    ends, the data URL or [null] after a read error. *)
Record File := {
  size : N;
  readResult : option jsstring
}.

(** [handleImageChange], up to the start of the read: the new state and
    the file handed to [readAsDataURL], if any.  [files] is
    [e.target.files]. *)
Definition handleImageChange (files : list File) (st : PageState)
  : PageState * option File :=
  match files with
  | [] => (st, None)
  | file :: _ =>
      if 10 * 1024 * 1024 <? size file
      then (toast fileTooLarge st, None)
      else (st, Some file)
  end.

(** [reader.onloadend] *)
Definition onloadend (file : File) (st : PageState) : PageState :=
  setImagePreview (readResult file) st.

(** [imagePreview || undefined] *)
Definition photoArgument (st : PageState) : option jsstring :=
  match imagePreview st with
  | Some (c :: u) => Some (c :: u)
  | _ => None
  end.

Section WithCaseConversion.
Context {CC : CaseConversion}.

(** [onSubmit] before the [await]: the state shown while the call runs,
    and the call itself. *)
Definition onSubmit_begin (st : PageState) : PageState :=
  setAnalysis None (setIsLoading true st).

Definition onSubmit_call (client : TextGenerationClient)
  (genAI : GoogleGenerativeAI) (data : jsstring) (st : PageState)
  : completion SymptomAnalysisOutput :=
  analyzeSymptoms client genAI
    {| symptoms := data; photoDataUri := photoArgument st |}.

(** [onSubmit] after the [await]: [try], [catch], [finally], on the
    state as it is when the call settles. *)
Definition onSubmit_settle (outcome : completion SymptomAnalysisOutput)
  (st : PageState) : PageState :=
  setIsLoading false
    match outcome with
    | inr result => setAnalysis (Some result) st
    | inl e => console_error e (toast analysisFailed st)
    end.

(** [onSubmit] run from start to end with nothing in between. *)
Definition onSubmit (client : TextGenerationClient)
  (genAI : GoogleGenerativeAI) (data : jsstring) (st : PageState)
  : PageState :=
  onSubmit_settle (onSubmit_call client genAI data st) (onSubmit_begin st).

(** [form.handleSubmit(onSubmit)] with the schema as resolver: the
    handler runs on valid data only; otherwise the field gets the
    message. *)
Definition handleSubmit (client : TextGenerationClient)
  (genAI : GoogleGenerativeAI) (symptomsField : jsstring) (st : PageState)
  : PageState * option jsstring :=
  match symptomCheckerSchema symptomsField with
  | inr data => (onSubmit client genAI data st, None)
  | inl message => (st, Some message)
  end.

(** What the user does: pick files (the read, if one starts, runs to
    its end) or submit the form while the service is [client]. *)
Inductive Event : Type :=
| ChangeImage (files : list File)
| SubmitForm (client : TextGenerationClient) (symptomsField : jsstring).

Definition step (genAI : GoogleGenerativeAI) (st : PageState) (ev : Event)
  : PageState :=
  match ev with
  | ChangeImage files =>
      match handleImageChange files st with
      | (st', Some file) => onloadend file st'
      | (st', None) => st'
      end
  | SubmitForm client symptomsField =>
      fst (handleSubmit client genAI symptomsField st)
  end.

Definition runEvents (genAI : GoogleGenerativeAI) (evs : list Event)
  : PageState :=
  fold_left (step genAI) evs initialState.

(** What the page hands to the markdown renderer. *)
Definition displayed (out : SymptomAnalysisOutput) : completion JSValue :=
  parseExplanation (explanation out).

End WithCaseConversion.

End SymptomCheckerPage.

(** ** Notions for further statements *)

Module Notions.
Import JSString.

(** The pieces put back together with the separator between them. *)
Fixpoint joinWith (sep : jsstring) (pieces : list jsstring) : jsstring :=
  match pieces with
  | [] => []
  | [p] => p
  | p :: rest => p ++ sep ++ joinWith sep rest
  end.

End Notions.

(** ** More example inputs *)

Module MoreExamples.
Import JSString JSON Analyzer Practitioners Examples SymptomCheckerPage.

(** A verdict with a horizontal rule in its markdown, and what the [try]
    block returns on it. *)
Definition ruledResponse : jsstring :=
  verdictSegment ++ delimiter ++ ruledMarkdown.

Definition ruledOutput : SymptomAnalysisOutput :=
  {| isSerious := JSBool true;
     explanation := JSString (js "# Likely Cause
A common cold.");
     suggestImmediateAction := JSBool false |}.

(** A verdict followed by the markdown without the delimiter. *)
Definition unseparatedVerdict : jsstring := verdictJSON ++ js "

".

Definition unseparatedMarkdown : jsstring := js "
A common cold.".

Definition verdictProps : list (jsstring * JSValue) :=
  [(js "isSerious", JSBool true);
   (js "suggestImmediateAction", JSBool false)].

Definition smallPhoto : File :=
  {| size := 2048;
     readResult := Some (js "data:image/png;base64,iVBORw0KGgo=") |}.

End MoreExamples.

(** * Properties *)

(** ** Strings *)

Module JSStringFacts.
Import JSString.

Lemma eqb_eq (s t : jsstring) : JSString.eqb s t = true <-> s = t.
Proof.
  unfold JSString.eqb. destruct (list_eq_dec N.eq_dec s t); split; congruence.
Qed.

Lemma startsWith_app (p s : jsstring) : startsWith p (p ++ s) = true.
Proof.
  induction p as [|a p IH]; simpl; [reflexivity|].
  now rewrite N.eqb_refl, IH.
Qed.

Lemma startsWith_prefix (p s : jsstring) :
  startsWith p s = true -> exists t, s = p ++ t.
Proof.
  revert s. induction p as [|a p IH]; intros s H; simpl in *.
  - now exists s.
  - destruct s as [|b s]; [discriminate|].
    apply andb_true_iff in H as [Hab H]. apply N.eqb_eq in Hab. subst b.
    destruct (IH _ H) as [t ->]. now exists t.
Qed.

Lemma includes_here (s sub : jsstring) :
  startsWith sub s = true -> includes s sub = true.
Proof.
  intros H. destruct s; simpl; now rewrite H.
Qed.

Lemma includes_app_intro (a sub b : jsstring) :
  includes (a ++ sub ++ b) sub = true.
Proof.
  induction a as [|c a IH].
  - apply includes_here. apply (startsWith_app sub b).
  - simpl. rewrite IH. apply orb_true_r.
Qed.

Lemma includes_occurrence (s sub : jsstring) :
  includes s sub = true -> exists a b, s = a ++ sub ++ b.
Proof.
  induction s as [|c s IH]; simpl; intros H.
  - rewrite orb_false_r in H. destruct sub; [|discriminate].
    now exists [], [].
  - apply orb_true_iff in H as [H|H].
    + destruct (startsWith_prefix _ _ H) as [t Ht]. exists [], t. exact Ht.
    + destruct (IH H) as (a & b & ->). now exists (c :: a), b.
Qed.

(** Lower-casing Basic Latin code units twice is lower-casing them once. *)
Lemma lowerASCII_idem (c : codeunit) : lowerASCII (lowerASCII c) = lowerASCII c.
Proof.
  unfold lowerASCII.
  destruct ((65 <=? c) && (c <=? 90)) eqn:E; [|now rewrite E].
  apply andb_true_iff in E as [H1 H2].
  apply N.leb_le in H1, H2.
  replace (c + 32 <=? 90) with false by (symmetry; apply N.leb_gt; lia).
  now rewrite andb_false_r.
Qed.

Lemma map_lowerASCII_idem (s : jsstring) :
  map lowerASCII (map lowerASCII s) = map lowerASCII s.
Proof.
  rewrite map_map. apply map_ext. intro; apply lowerASCII_idem.
Qed.

(** *** [split] *)

Lemma startsWith_app_long (p a b : jsstring) :
  (List.length p <= List.length a)%nat ->
  startsWith p (a ++ b) = startsWith p a.
Proof.
  revert a. induction p as [|x p IH]; intros a H; [reflexivity|].
  destruct a as [|y a]; simpl in *; [lia|].
  rewrite IH by lia. reflexivity.
Qed.

Lemma includes_cons_false (c : codeunit) (s sub : jsstring) :
  includes (c :: s) sub = false ->
  startsWith sub (c :: s) = false /\ includes s sub = false.
Proof. simpl. intros H. now apply orb_false_iff in H. Qed.

(** Passing over the rest of a separator. *)
Lemma split_scan_skip (sep a piece s : jsstring) :
  split_scan sep (List.length a) piece (a ++ s) = split_scan sep 0 piece s.
Proof.
  induction a as [|c a IH]; simpl; [|exact IH].
  destruct s; reflexivity.
Qed.

(** Without an occurrence of the separator the text is one piece. *)
Lemma split_scan_none (sep : jsstring) (s piece : jsstring) :
  includes s sep = false ->
  split_scan sep 0 piece s = [rev piece ++ s].
Proof.
  revert piece. induction s as [|c s IH]; intros piece H.
  - simpl. now rewrite app_nil_r.
  - apply includes_cons_false in H as [H1 H2].
    cbn [split_scan]. rewrite H1, (IH _ H2). simpl.
    now rewrite <- app_assoc.
Qed.

(** The first occurrence of the separator closes the first piece.  The
    hypothesis says that no occurrence begins inside [j]. *)
Lemma split_scan_first (sep j rest piece : jsstring) :
  sep <> [] ->
  includes (j ++ removelast sep) sep = false ->
  split_scan sep 0 piece (j ++ sep ++ rest)
  = (rev piece ++ j) :: split_scan sep 0 [] rest.
Proof.
  intros Hsep. revert piece. induction j as [|c j IH]; intros piece H.
  - destruct sep as [|d sep']; [congruence|].
    change ([] ++ (d :: sep') ++ rest) with (d :: sep' ++ rest).
    cbn [split_scan].
    rewrite (startsWith_app (d :: sep') rest : startsWith (d :: sep') (d :: sep' ++ rest) = true).
    rewrite app_nil_r. f_equal.
    replace (List.length (d :: sep') - 1)%nat with (List.length sep')
      by (simpl; lia).
    apply split_scan_skip.
  - change ((c :: j) ++ removelast sep) with (c :: j ++ removelast sep) in H.
    apply includes_cons_false in H as [H1 H2].
    change ((c :: j) ++ sep ++ rest) with (c :: j ++ sep ++ rest).
    cbn [split_scan].
    assert (E : startsWith sep (c :: j ++ sep ++ rest) = false).
    { rewrite <- H1.
      rewrite (app_removelast_last 0 Hsep) at 2.
      rewrite <- app_assoc, app_assoc.
      apply (startsWith_app_long sep (c :: j ++ removelast sep)).
      simpl. rewrite length_app.
      rewrite (app_removelast_last 0 Hsep) at 1.
      rewrite length_app. simpl. lia. }
    rewrite E, (IH _ H2). simpl. now rewrite <- app_assoc.
Qed.

(** [text.split(sep)] when [sep] first occurs right after [j]. *)
Lemma split_first (sep j rest : jsstring) :
  sep <> [] ->
  includes (j ++ removelast sep) sep = false ->
  split (j ++ sep ++ rest) sep = j :: split rest sep.
Proof.
  intros Hsep H. unfold split. destruct sep as [|d sep']; [congruence|].
  apply (split_scan_first (d :: sep') j rest [] Hsep H).
Qed.

Lemma split_none (sep s : jsstring) :
  sep <> [] -> includes s sep = false -> split s sep = [s].
Proof.
  intros Hsep H. unfold split. destruct sep as [|d sep']; [congruence|].
  apply (split_scan_none (d :: sep') s [] H).
Qed.

(** A split always yields at least one piece. *)
Lemma split_scan_nonempty (sep : jsstring) (k : nat) (piece s : jsstring) :
  split_scan sep k piece s <> [].
Proof.
  revert k piece. induction s as [|c s IH]; intros k piece; cbn [split_scan].
  - discriminate.
  - destruct k; [|apply IH].
    destruct (startsWith sep (c :: s)); [discriminate|apply IH].
Qed.

Lemma split_nonempty (s sep : jsstring) : sep <> [] -> split s sep <> [].
Proof.
  intros H. unfold split. destruct sep; [congruence|].
  apply split_scan_nonempty.
Qed.

(** For the three dashes: no occurrence begins inside [j] when [j] holds
    none and does not end in a dash. *)
Lemma no_dash_straddle (j : jsstring) :
  includes j (js "---") = false ->
  last j 0 <> 45 ->
  includes (j ++ js "--") (js "---") = false.
Proof.
  induction j as [|c j IH]; intros H L; [reflexivity|].
  apply includes_cons_false in H as [H1 H2].
  change ((c :: j) ++ js "--") with (c :: j ++ js "--").
  cbn [includes]. apply orb_false_iff. split.
  - destruct j as [|x [|y j]].
    + simpl in L. cbn -[N.eqb].
      destruct (N.eqb_spec 45 c); [congruence|reflexivity].
    + simpl in L. cbn -[N.eqb].
      destruct (N.eqb_spec 45 x); [congruence|]. now rewrite andb_false_r.
    + exact H1.
  - apply IH; [exact H2|]. destruct j; [simpl; discriminate|exact L].
Qed.

(** *** [trim] *)

Lemma trimStart_spec (s : jsstring) :
  exists w, s = w ++ trimStart s /\ forallb isWhiteSpace w = true.
Proof.
  induction s as [|c s (w & E & Hw)]; simpl.
  - now exists [].
  - destruct (isWhiteSpace c) eqn:C.
    + exists (c :: w). simpl. rewrite C, Hw. now rewrite E at 1.
    + now exists [].
Qed.

Lemma trimEnd_spec (s : jsstring) :
  exists w, s = trimEnd s ++ w /\ forallb isWhiteSpace w = true.
Proof.
  unfold trimEnd. destruct (trimStart_spec (rev s)) as (w & E & Hw).
  exists (rev w). split.
  - rewrite <- rev_app_distr, <- E. now rewrite rev_involutive.
  - rewrite forallb_forall in *. intros x Hx. apply Hw. now apply in_rev.
Qed.

(** [trim] takes white space off both ends and nothing else. *)
Lemma trim_spec (s : jsstring) :
  exists w1 w2, s = w1 ++ trim s ++ w2
                /\ forallb isWhiteSpace w1 = true
                /\ forallb isWhiteSpace w2 = true.
Proof.
  unfold trim. destruct (trimStart_spec s) as (w1 & E1 & H1).
  destruct (trimEnd_spec (trimStart s)) as (w2 & E2 & H2).
  exists w1, w2. repeat split; [|assumption..].
  now rewrite <- E2.
Qed.

Lemma last_app_cons (a b : jsstring) (x d : codeunit) :
  last (a ++ x :: b) d = last (x :: b) d.
Proof.
  induction a as [|y a IH]; [reflexivity|].
  simpl app. rewrite <- IH. simpl. now destruct (a ++ x :: b) eqn:E;
    [destruct a; discriminate|].
Qed.

Lemma last_cons_In (x : codeunit) (l : jsstring) (d : codeunit) :
  In (last (x :: l) d) (x :: l).
Proof.
  revert x. induction l as [|y l IH]; intros x; [now left|].
  right. apply (IH y).
Qed.

Lemma trimStart_skip (u : jsstring) (c : codeunit) (s : jsstring) :
  forallb isWhiteSpace u = true -> isWhiteSpace c = false ->
  trimStart (u ++ c :: s) = c :: s.
Proof.
  intros Hu Hc. induction u as [|y u IH]; simpl.
  - now rewrite Hc.
  - simpl in Hu. apply andb_true_iff in Hu as [-> Hu]. now apply IH.
Qed.

Lemma trimEnd_strip (p : jsstring) (x : codeunit) (w : jsstring) :
  forallb isWhiteSpace w = true -> isWhiteSpace x = false ->
  trimEnd (p ++ x :: w) = p ++ [x].
Proof.
  intros Hw Hx. unfold trimEnd.
  rewrite rev_app_distr. simpl. rewrite <- app_assoc. simpl.
  rewrite trimStart_skip; [| |exact Hx].
  2:{ rewrite forallb_forall in *. intros y Hy. apply Hw. now apply in_rev. }
  simpl. now rewrite rev_involutive.
Qed.

End JSStringFacts.

(** Case conversion restricted to Basic Latin: the instance on which the
    examples over ASCII text are evaluated. *)
Definition basicLatin : JSString.CaseConversion :=
  {| JSString.toLowerCase := map JSString.lowerASCII;
     JSString.toLowerCase_ascii := fun s _ => eq_refl;
     JSString.toLowerCase_idem := JSStringFacts.map_lowerASCII_idem |}.

(** ** [JSON.parse] *)

Module JSONFacts.
Import JSString JSStringFacts JSON.

(** Equations between concatenations, up to re-bracketing. *)
Ltac reassoc := simpl; rewrite <- ?app_assoc; simpl; reflexivity.

Lemma leaves_refl s : leaves s s.
Proof. now exists []. Qed.

Lemma leaves_cons c s r : leaves s r -> leaves (c :: s) r.
Proof. intros [p ->]. now exists (c :: p). Qed.

Lemma leaves_trans s t r : leaves s t -> leaves t r -> leaves s r.
Proof. intros [p ->] [q ->]. exists (p ++ q). now rewrite app_assoc. Qed.

Lemma leaves_length s r : leaves s r -> (List.length r <= List.length s)%nat.
Proof. intros [p ->]. rewrite length_app. lia. Qed.

Lemma consumes_leaves s r : consumes s r -> leaves s (r).
Proof.
  intros (p & x & -> & _). exists (p ++ [x]). now rewrite <- app_assoc.
Qed.

Lemma consumes_after s t r : leaves s t -> consumes t r -> consumes s r.
Proof.
  intros [p ->] (q & x & -> & Hx). exists (p ++ q), x.
  now rewrite app_assoc.
Qed.

Lemma consumes_then s t r : consumes s t -> leaves t r -> leaves s r.
Proof. intros H. apply leaves_trans. now apply consumes_leaves. Qed.

Lemma consumes_here x r : isValueEnd x = true -> consumes (x :: r) r.
Proof. intros Hx. now exists [], x. Qed.

Lemma consumes_length s r :
  consumes s r -> (List.length r < List.length s)%nat.
Proof.
  intros (p & x & -> & _). rewrite length_app. simpl. lia.
Qed.

Lemma skip_ws_leaves s : leaves s (skip_ws s).
Proof.
  induction s as [|c s IH]; simpl.
  - apply leaves_refl.
  - destruct (isJSONSpace c); [now apply leaves_cons | apply leaves_refl].
Qed.

Lemma skip_ws_cons s c t : skip_ws s = c :: t -> leaves s (c :: t).
Proof. intros <-. apply skip_ws_leaves. Qed.

(** A string literal is read up to and including its closing quote. *)
Lemma lex_string_consumes s str r :
  lex_string s = Some (str, r) -> consumes s r.
Proof.
  remember (List.length s) as n eqn:Hn.
  revert s str r Hn.
  induction n as [n IH] using lt_wf_ind. intros s str r Hn.
  destruct s as [|c s1]; simpl; [discriminate|].
  destruct (N.eqb_spec c 34) as [->|_].
  { intros [= <- <-]. now apply consumes_here. }
  destruct (c =? 92).
  - destruct s1 as [|e s2]; [discriminate|].
    destruct (e =? 117).
    + destruct s2 as [|h1 [|h2 [|h3 [|h4 s3]]]]; try discriminate.
      destruct (hex4 h1 h2 h3 h4); [|discriminate].
      destruct (lex_string s3) as [[str' r']|] eqn:E; [|discriminate].
      intros [= <- <-].
      apply (consumes_after _ s3).
      * now exists [c; e; h1; h2; h3; h4].
      * eapply (IH (List.length s3)); [subst n; simpl; lia|reflexivity|exact E].
    + destruct (escape e); [|discriminate].
      destruct (lex_string s2) as [[str' r']|] eqn:E; [|discriminate].
      intros [= <- <-].
      apply (consumes_after _ s2).
      * now exists [c; e].
      * eapply (IH (List.length s2)); [subst n; simpl; lia|reflexivity|exact E].
  - destruct (c <? 32); [discriminate|].
    destruct (lex_string s1) as [[str' r']|] eqn:E; [|discriminate].
    intros [= <- <-].
    apply (consumes_after _ s1).
    * now exists [c].
    * eapply (IH (List.length s1)); [subst n; simpl; lia|reflexivity|exact E].
Qed.

Lemma digits_spec s ds r :
  digits s = (ds, r) -> s = ds ++ r /\ forallb isDigit ds = true.
Proof.
  revert ds r. induction s as [|c s IH]; simpl; intros ds r.
  - intros [= <- <-]. now split.
  - destruct (isDigit c) eqn:E.
    + destruct (digits s) as [ds' r'].
      intros [= <- <-]. destruct (IH _ _ eq_refl) as [-> H].
      split; [reflexivity|]. simpl. now rewrite E, H.
    + intros [= <- <-]. now split.
Qed.

(** A run of digits, when not empty, ends in a digit. *)
Lemma digit_run_end (p ds : jsstring) :
  forallb isDigit ds = true -> ds <> [] ->
  exists q x, p ++ ds = q ++ [x] /\ isDigit x = true.
Proof.
  intros Hds Hne.
  destruct (exists_last Hne) as (q & x & ->).
  exists (p ++ q), x. split; [now rewrite app_assoc|].
  rewrite forallb_app in Hds. apply andb_true_iff in Hds as [_ Hx].
  simpl in Hx. now rewrite andb_true_r in Hx.
Qed.

Lemma endsInDigit_app_r a b : endsInDigit b -> endsInDigit (a ++ b).
Proof.
  intros (q & x & -> & Hx). exists (a ++ q), x. now rewrite app_assoc.
Qed.

Lemma endsInDigit_app_opt a b :
  endsInDigit a -> b = [] \/ endsInDigit b -> endsInDigit (a ++ b).
Proof.
  intros Ha [->|Hb]; [now rewrite app_nil_r | now apply endsInDigit_app_r].
Qed.

Lemma endsInDigit_digits c ds :
  forallb isDigit (c :: ds) = true -> endsInDigit (c :: ds).
Proof.
  intros H. destruct (digit_run_end [] (c :: ds) H) as (q & x & E & Hx).
  - discriminate.
  - now exists q, x.
Qed.

Lemma lex_int_spec s i r :
  lex_int s = Some (i, r) -> s = i ++ r /\ endsInDigit i.
Proof.
  destruct s as [|c s]; simpl; [discriminate|].
  destruct (N.eqb_spec c 48) as [->|_].
  - intros [= <- <-]. split; [reflexivity|]. now exists [], 48.
  - destruct (isDigit c) eqn:E; [|discriminate].
    destruct (digits s) as [ds r'] eqn:D. intros [= <- <-].
    destruct (digits_spec _ _ _ D) as [-> H]. split; [reflexivity|].
    apply endsInDigit_digits. simpl. now rewrite E, H.
Qed.

Lemma lex_frac_spec s f r :
  lex_frac s = Some (f, r) -> s = f ++ r /\ (f = [] \/ endsInDigit f).
Proof.
  destruct s as [|c s]; simpl.
  { intros [= <- <-]. now split; [|left]. }
  destruct (c =? 46).
  - destruct (digits s) as [[|d ds] r'] eqn:D; [discriminate|].
    intros [= <- <-]. destruct (digits_spec _ _ _ D) as [-> H].
    split; [reflexivity|right].
    apply (endsInDigit_app_r [c]). now apply endsInDigit_digits.
  - intros [= <- <-]. now split; [|left].
Qed.

Lemma lex_exp_spec s e r :
  lex_exp s = Some (e, r) -> s = e ++ r /\ (e = [] \/ endsInDigit e).
Proof.
  destruct s as [|c s]; simpl.
  { intros [= <- <-]. now split; [|left]. }
  destruct ((c =? 101) || (c =? 69)).
  - assert (S : exists sign s'',
               s = sign ++ s'' /\
               match s with
               | d :: t => if (d =? 43) || (d =? 45) then ([d], t) else ([], s)
               | [] => ([], [])
               end = (sign, s'')).
    { destruct s as [|d t]; [now exists [], []|].
      destruct ((d =? 43) || (d =? 45)); [now exists [d], t | now exists [], (d :: t)]. }
    destruct S as (sign & s'' & -> & ->).
    destruct (digits s'') as [[|d ds] r'] eqn:D; [discriminate|].
    intros [= <- <-]. destruct (digits_spec _ _ _ D) as [-> H].
    split; [reassoc|right].
    apply (endsInDigit_app_r (c :: sign)). now apply endsInDigit_digits.
  - intros [= <- <-]. now split; [|left].
Qed.

(** A number is read as its lexeme, and the lexeme ends in a digit. *)
Lemma lex_number_spec s n r :
  lex_number s = Some (n, r) -> s = n ++ r /\ endsInDigit n.
Proof.
  unfold lex_number.
  assert (S : exists sign s0,
             s = sign ++ s0 /\
             match s with
             | c :: s' => if c =? 45 then ([c], s') else ([], s)
             | [] => ([], [])
             end = (sign, s0)).
  { destruct s as [|c s']; [now exists [], []|].
    destruct (c =? 45); [now exists [c], s' | now exists [], (c :: s')]. }
  destruct S as (sign & s0 & -> & ->).
  destruct (lex_int s0) as [[i s1]|] eqn:I; [|discriminate].
  destruct (lex_frac s1) as [[f s2]|] eqn:F; [|discriminate].
  destruct (lex_exp s2) as [[e s3]|] eqn:E; [|discriminate].
  intros [= <- <-].
  destruct (lex_int_spec _ _ _ I) as [-> Hi].
  destruct (lex_frac_spec _ _ _ F) as [-> Hf].
  destruct (lex_exp_spec _ _ _ E) as [-> He].
  split; [reassoc|].
  apply endsInDigit_app_r.
  destruct He as [->|He].
  - rewrite app_nil_r. now apply endsInDigit_app_opt.
  - rewrite app_assoc. now apply endsInDigit_app_r.
Qed.

Lemma lex_number_consumes s n r : lex_number s = Some (n, r) -> consumes s r.
Proof.
  intros H. destruct (lex_number_spec _ _ _ H) as [-> (q & x & -> & Hx)].
  exists q, x. split; [now rewrite <- app_assoc|].
  unfold isValueEnd. rewrite Hx. now rewrite !orb_true_r.
Qed.

Lemma lex_literal_consumes s v r : lex_literal s = Some (v, r) -> consumes s r.
Proof.
  unfold lex_literal.
  destruct (startsWith (js "true") s) eqn:T.
  { destruct (startsWith_prefix _ _ T) as [t ->]. intros [= <- <-].
    now exists (js "tru"), 101. }
  destruct (startsWith (js "false") s) eqn:F.
  { destruct (startsWith_prefix _ _ F) as [t ->]. intros [= <- <-].
    now exists (js "fals"), 101. }
  destruct (startsWith (js "null") s) eqn:U; [|discriminate].
  destruct (startsWith_prefix _ _ U) as [t ->]. intros [= <- <-].
  now exists (js "nul"), 108.
Qed.

Lemma leaves_tail s c t : leaves s (c :: t) -> leaves s t.
Proof. intros H. eapply leaves_trans; [exact H|]. apply leaves_cons, leaves_refl. Qed.

(** Every successful parse reads a non-empty prefix that ends the way a
    JSON value ends. *)
Lemma parse_consumes (f : nat) :
  (forall s v r, parse_value f s = Parsed (v, r) -> consumes s r) /\
  (forall acc s v r, parse_elements f acc s = Parsed (v, r) -> consumes s r) /\
  (forall acc s v r, parse_members f acc s = Parsed (v, r) -> consumes s r).
Proof.
  induction f as [|f (IHv & IHe & IHm)];
    [repeat split; intros; discriminate|].
  repeat split.
  - intros s v r. cbn [parse_value].
    destruct (skip_ws s) as [|c s1] eqn:W; [discriminate|].
    apply skip_ws_cons in W.
    destruct (N.eqb_spec c 123) as [->|_].
    { destruct (skip_ws s1) as [|d s2] eqn:W1; [discriminate|].
      apply skip_ws_cons in W1.
      destruct (N.eqb_spec d 125) as [->|_].
      - intros [= <- <-]. apply (consumes_after _ (125 :: s2)).
        + eapply leaves_trans; [exact (leaves_tail _ _ _ W)|exact W1].
        + now apply consumes_here.
      - intros H. apply (consumes_after _ s1); [exact (leaves_tail _ _ _ W)|].
        eapply IHm; exact H. }
    destruct (N.eqb_spec c 91) as [->|_].
    { destruct (skip_ws s1) as [|d s2] eqn:W1; [discriminate|].
      apply skip_ws_cons in W1.
      destruct (N.eqb_spec d 93) as [->|_].
      - intros [= <- <-]. apply (consumes_after _ (93 :: s2)).
        + eapply leaves_trans; [exact (leaves_tail _ _ _ W)|exact W1].
        + now apply consumes_here.
      - intros H. apply (consumes_after _ s1); [exact (leaves_tail _ _ _ W)|].
        eapply IHe; exact H. }
    destruct (N.eqb_spec c 34) as [->|_].
    { destruct (lex_string s1) as [[str rest]|] eqn:L; [|discriminate].
      intros [= <- <-]. apply (consumes_after _ s1);
        [exact (leaves_tail _ _ _ W)|]. eapply lex_string_consumes; exact L. }
    destruct ((c =? 45) || isDigit c).
    { destruct (lex_number (c :: s1)) as [[n rest]|] eqn:L; [|discriminate].
      intros [= <- <-]. apply (consumes_after _ (c :: s1)); [exact W|].
      eapply lex_number_consumes; exact L. }
    destruct (lex_literal (c :: s1)) as [[v' rest]|] eqn:L; [|discriminate].
    intros [= <- <-]. apply (consumes_after _ (c :: s1)); [exact W|].
    eapply lex_literal_consumes; exact L.
  - intros acc s v r. cbn [parse_elements].
    destruct (parse_value f s) as [[v1 s1]| |] eqn:V; try discriminate.
    apply IHv in V.
    destruct (skip_ws s1) as [|c s2] eqn:W; [discriminate|].
    apply skip_ws_cons in W.
    assert (L : leaves s s2).
    { eapply consumes_then; [exact V|]. exact (leaves_tail _ _ _ W). }
    destruct (N.eqb_spec c 44) as [->|_].
    { intros H. apply (consumes_after _ s2); [exact L|]. eapply IHe; exact H. }
    destruct (N.eqb_spec c 93) as [->|_]; [|discriminate].
    intros [= <- <-]. apply (consumes_after _ (93 :: s2)).
    + eapply consumes_then; [exact V|exact W].
    + now apply consumes_here.
  - intros acc s v r. cbn [parse_members].
    destruct (skip_ws s) as [|q s1] eqn:W; [discriminate|].
    apply skip_ws_cons in W.
    destruct (N.eqb_spec q 34) as [->|_]; [|discriminate].
    destruct (lex_string s1) as [[k s2]|] eqn:K; [|discriminate].
    apply lex_string_consumes in K.
    destruct (skip_ws s2) as [|c s3] eqn:W2; [discriminate|].
    apply skip_ws_cons in W2.
    destruct (N.eqb_spec c 58) as [->|_]; [|discriminate].
    destruct (parse_value f s3) as [[v1 s4]| |] eqn:V; try discriminate.
    apply IHv in V.
    destruct (skip_ws s4) as [|d s5] eqn:W4; [discriminate|].
    apply skip_ws_cons in W4.
    assert (L3 : leaves s s3).
    { eapply leaves_trans; [exact (leaves_tail _ _ _ W)|].
      eapply consumes_then; [exact K|]. exact (leaves_tail _ _ _ W2). }
    assert (L4 : leaves s (d :: s5)).
    { eapply leaves_trans; [exact L3|].
      eapply consumes_then; [exact V|exact W4]. }
    destruct (N.eqb_spec d 44) as [->|_].
    { intros H. apply (consumes_after _ s5); [exact (leaves_tail _ _ _ L4)|].
      eapply IHm; exact H. }
    destruct (N.eqb_spec d 125) as [->|_]; [|discriminate].
    intros [= <- <-]. apply (consumes_after _ (125 :: s5)); [exact L4|].
    now apply consumes_here.
Qed.

Lemma parse_value_consumes f s v r :
  parse_value f s = Parsed (v, r) -> consumes s r.
Proof. apply parse_consumes. Qed.

Lemma leaves_cons_length s c t :
  leaves s (c :: t) -> (List.length t < List.length s)%nat.
Proof. intros H. apply leaves_length in H. simpl in H. lia. Qed.

(** Fuel: two units per code unit of input are enough, since between two
    nested calls at least one code unit is read. *)
Lemma parse_fuel (f : nat) :
  (forall s, (2 * List.length s + 1 <= f)%nat ->
             parse_value f s <> OutOfFuel) /\
  (forall acc s, (2 * List.length s + 2 <= f)%nat ->
                 parse_elements f acc s <> OutOfFuel) /\
  (forall acc s, (2 * List.length s + 2 <= f)%nat ->
                 parse_members f acc s <> OutOfFuel).
Proof.
  induction f as [|f (IHv & IHe & IHm)]; [repeat split; intros; lia|].
  repeat split.
  - intros s Hf. cbn [parse_value].
    destruct (skip_ws s) as [|c s1] eqn:W; [discriminate|].
    apply skip_ws_cons, leaves_cons_length in W.
    destruct (c =? 123).
    { destruct (skip_ws s1) as [|d s2]; [discriminate|].
      destruct (d =? 125); [discriminate|]. apply IHm. lia. }
    destruct (c =? 91).
    { destruct (skip_ws s1) as [|d s2]; [discriminate|].
      destruct (d =? 93); [discriminate|]. apply IHe. lia. }
    destruct (c =? 34).
    { destruct (lex_string s1) as [[? ?]|]; discriminate. }
    destruct ((c =? 45) || isDigit c).
    { destruct (lex_number (c :: s1)) as [[? ?]|]; discriminate. }
    destruct (lex_literal (c :: s1)); discriminate.
  - intros acc s Hf. cbn [parse_elements].
    destruct (parse_value f s) as [[v1 s1]| |] eqn:V; [|discriminate|].
    + apply parse_value_consumes, consumes_length in V.
      destruct (skip_ws s1) as [|c s2] eqn:W; [discriminate|].
      apply skip_ws_cons, leaves_cons_length in W.
      destruct (c =? 44); [apply IHe; lia|].
      destruct (c =? 93); discriminate.
    + exfalso. revert V. apply IHv. lia.
  - intros acc s Hf. cbn [parse_members].
    destruct (skip_ws s) as [|q s1] eqn:W; [discriminate|].
    apply skip_ws_cons, leaves_cons_length in W.
    destruct (q =? 34); [|discriminate].
    destruct (lex_string s1) as [[k s2]|] eqn:K; [|discriminate].
    apply lex_string_consumes, consumes_length in K.
    destruct (skip_ws s2) as [|c s3] eqn:W2; [discriminate|].
    apply skip_ws_cons, leaves_cons_length in W2.
    destruct (c =? 58); [|discriminate].
    destruct (parse_value f s3) as [[v1 s4]| |] eqn:V; [|discriminate|].
    + apply parse_value_consumes, consumes_length in V.
      destruct (skip_ws s4) as [|d s5] eqn:W4; [discriminate|].
      apply skip_ws_cons, leaves_cons_length in W4.
      destruct (d =? 44); [apply IHm; lia|].
      destruct (d =? 125); discriminate.
    + exfalso. revert V. apply IHv. lia.
Qed.

(** [JSON.parse] always returns a value or throws a [SyntaxError]. *)
Theorem JSON_parse_total (text : jsstring) : JSON_parse text <> OutOfFuel.
Proof.
  unfold JSON_parse.
  destruct (parse_value (2 * List.length text + 1) text) as [[v r]| |] eqn:P.
  - destruct (skip_ws r); discriminate.
  - discriminate.
  - exfalso. revert P. apply parse_fuel. lia.
Qed.

Lemma skip_ws_nil (r : jsstring) :
  skip_ws r = [] -> forallb isJSONSpace r = true.
Proof.
  induction r as [|c r IH]; simpl; [reflexivity|].
  destruct (isJSONSpace c); [exact IH|discriminate].
Qed.

(** A text [JSON.parse] accepts ends with the end of a value followed by
    JSON white space only. *)
Lemma JSON_parse_end (text : jsstring) (v : JSValue) :
  JSON_parse text = Parsed v ->
  exists p x w, text = p ++ x :: w /\ isValueEnd x = true
                /\ forallb isJSONSpace w = true.
Proof.
  unfold JSON_parse.
  destruct (parse_value _ text) as [[v' r]| |] eqn:P; try discriminate.
  destruct (skip_ws r) eqn:W; [|discriminate]. intros _.
  apply parse_value_consumes in P as (p & x & E & Hx).
  exists p, x, r. repeat split; [exact E|exact Hx|now apply skip_ws_nil].
Qed.

(** So a segment whose trimmed form parses does not end in a dash. *)
Lemma parsed_segment_no_dash (j : jsstring) (v : JSValue) :
  JSON_parse (trim j) = Parsed v -> last j 0 <> 45.
Proof.
  intros H. apply JSON_parse_end in H as (p & x & w & E & Hx & Hw).
  destruct (trim_spec j) as (w1 & w2 & Ej & _ & H2).
  rewrite E in Ej. rewrite Ej.
  replace (w1 ++ (p ++ x :: w) ++ w2) with ((w1 ++ p) ++ x :: (w ++ w2))
    by reassoc.
  rewrite last_app_cons. intros L.
  pose proof (last_cons_In x (w ++ w2) 0) as I. rewrite L in I.
  destruct I as [->|I]; [discriminate|].
  apply in_app_or in I as [I|I].
  - rewrite forallb_forall in Hw. now apply Hw in I.
  - rewrite forallb_forall in H2. now apply H2 in I.
Qed.

(** [JSON.parse] never returns [undefined]. *)
Lemma parse_defined (f : nat) :
  (forall s r, parse_value f s <> Parsed (JSUndefined, r)) /\
  (forall acc s r, parse_elements f acc s <> Parsed (JSUndefined, r)) /\
  (forall acc s r, parse_members f acc s <> Parsed (JSUndefined, r)).
Proof.
  induction f as [|f (IHv & IHe & IHm)];
    [repeat split; intros; discriminate|].
  repeat split.
  - intros s r. cbn [parse_value].
    destruct (skip_ws s) as [|c s1]; [discriminate|].
    destruct (c =? 123).
    { destruct (skip_ws s1) as [|d s2]; [discriminate|].
      destruct (d =? 125); [discriminate|apply IHm]. }
    destruct (c =? 91).
    { destruct (skip_ws s1) as [|d s2]; [discriminate|].
      destruct (d =? 93); [discriminate|apply IHe]. }
    destruct (c =? 34).
    { destruct (lex_string s1) as [[? ?]|]; discriminate. }
    destruct ((c =? 45) || isDigit c).
    { destruct (lex_number (c :: s1)) as [[? ?]|]; discriminate. }
    unfold lex_literal.
    destruct (startsWith (js "true") (c :: s1)); [discriminate|].
    destruct (startsWith (js "false") (c :: s1)); [discriminate|].
    destruct (startsWith (js "null") (c :: s1)); discriminate.
  - intros acc s r. cbn [parse_elements].
    destruct (parse_value f s) as [[v1 s1]| |]; try discriminate.
    destruct (skip_ws s1) as [|c s2]; [discriminate|].
    destruct (c =? 44); [apply IHe|].
    destruct (c =? 93); discriminate.
  - intros acc s r. cbn [parse_members].
    destruct (skip_ws s) as [|q s1]; [discriminate|].
    destruct (q =? 34); [|discriminate].
    destruct (lex_string s1) as [[k s2]|]; [|discriminate].
    destruct (skip_ws s2) as [|c s3]; [discriminate|].
    destruct (c =? 58); [|discriminate].
    destruct (parse_value f s3) as [[v1 s4]| |]; try discriminate.
    destruct (skip_ws s4) as [|d s5]; [discriminate|].
    destruct (d =? 44); [apply IHm|].
    destruct (d =? 125); discriminate.
Qed.

Lemma JSON_parse_defined (text : jsstring) :
  JSON_parse text = Parsed JSUndefined -> False.
Proof.
  unfold JSON_parse.
  destruct (parse_value _ text) as [[v r]| |] eqn:E; try discriminate.
  destruct (skip_ws r); [|discriminate]. intros [= ->].
  revert E. apply parse_defined.
Qed.

(** *** White space around a JSON text *)

Lemma isJSONSpace_cases (a : codeunit) :
  isJSONSpace a = true -> a = 32 \/ a = 9 \/ a = 10 \/ a = 13.
Proof.
  unfold isJSONSpace. rewrite !orb_true_iff, !N.eqb_eq. tauto.
Qed.

Ltac space_cases a H :=
  destruct (isJSONSpace_cases a H) as [->|[->|[->| ->]]].

Lemma isJSONSpace_isWhiteSpace (a : codeunit) :
  isJSONSpace a = true -> isWhiteSpace a = true.
Proof. intros H. space_cases a H; reflexivity. Qed.

Lemma isDigit_not_space (x : codeunit) :
  isDigit x = true -> isWhiteSpace x = false.
Proof.
  unfold isDigit, isWhiteSpace. rewrite andb_true_iff, !N.leb_le.
  intros [H1 H2].
  repeat match goal with
         | |- context [?a <=? ?b] =>
             let E := fresh in
             destruct (N.leb_spec a b) as [E|E]; try lia
         | |- context [?a =? ?b] =>
             let E := fresh in
             destruct (N.eqb_spec a b) as [E|E]; try lia
         end; reflexivity.
Qed.

Lemma isValueEnd_not_space (x : codeunit) :
  isValueEnd x = true -> isWhiteSpace x = false.
Proof.
  unfold isValueEnd. rewrite !orb_true_iff, !N.eqb_eq.
  intros [[[[[->| ->]| ->]|H]| ->]| ->]; try reflexivity.
  now apply isDigit_not_space.
Qed.

Section TrailingSpace.
Variable a : codeunit.
Hypothesis Ha : isJSONSpace a = true.

Lemma skip_ws_push (s : jsstring) :
  skip_ws (s ++ [a]) =
  match skip_ws s with
  | [] => []
  | c :: t => c :: t ++ [a]
  end.
Proof.
  induction s as [|c s IH]; simpl.
  - now rewrite Ha.
  - destruct (isJSONSpace c); [exact IH|reflexivity].
Qed.

Lemma lex_string_push (s : jsstring) :
  lex_string (s ++ [a]) = push a (lex_string s).
Proof.
  remember (List.length s) as n eqn:Hn. revert s Hn.
  induction n as [n IH] using lt_wf_ind. intros s Hn.
  destruct s as [|c s1].
  { space_cases a Ha; reflexivity. }
  cbn [app lex_string].
  destruct (c =? 34); [reflexivity|].
  destruct (c =? 92).
  - destruct s1 as [|e s2]; cbn [app].
    { space_cases a Ha; reflexivity. }
    destruct (e =? 117).
    + destruct s2 as [|h1 [|h2 [|h3 [|h4 s3]]]]; cbn [app]; try reflexivity.
      * unfold hex4. destruct (hexval h1), (hexval h2), (hexval h3);
          try reflexivity.
        space_cases a Ha; reflexivity.
      * rewrite (IH (List.length s3)) by (subst n; simpl; lia || reflexivity).
        destruct (hex4 h1 h2 h3 h4); [|reflexivity].
        destruct (lex_string s3) as [[? ?]|]; reflexivity.
    + rewrite (IH (List.length s2)) by (subst n; simpl; lia || reflexivity).
      destruct (escape e); [|reflexivity].
      destruct (lex_string s2) as [[? ?]|]; reflexivity.
  - destruct (c <? 32); [reflexivity|].
    rewrite (IH (List.length s1)) by (subst n; simpl; lia || reflexivity).
    destruct (lex_string s1) as [[? ?]|]; reflexivity.
Qed.

Lemma digits_push (s : jsstring) :
  digits (s ++ [a]) = let (ds, r) := digits s in (ds, r ++ [a]).
Proof.
  induction s as [|c s IH]; cbn [app digits].
  - space_cases a Ha; reflexivity.
  - destruct (isDigit c); [|reflexivity].
    rewrite IH. destruct (digits s); reflexivity.
Qed.

Lemma lex_int_push (s : jsstring) :
  lex_int (s ++ [a]) = push a (lex_int s).
Proof.
  destruct s as [|c s]; cbn [app lex_int].
  { space_cases a Ha; reflexivity. }
  destruct (c =? 48); [reflexivity|].
  destruct (isDigit c); [|reflexivity].
  rewrite digits_push. destruct (digits s); reflexivity.
Qed.

Lemma lex_frac_push (s : jsstring) :
  lex_frac (s ++ [a]) = push a (lex_frac s).
Proof.
  destruct s as [|c s]; cbn [app lex_frac].
  { space_cases a Ha; reflexivity. }
  destruct (c =? 46); [|reflexivity].
  rewrite digits_push. destruct (digits s) as [[|d ds] r]; reflexivity.
Qed.

Lemma lex_exp_push (s : jsstring) :
  lex_exp (s ++ [a]) = push a (lex_exp s).
Proof.
  destruct s as [|c s]; cbn [app lex_exp].
  { space_cases a Ha; reflexivity. }
  destruct ((c =? 101) || (c =? 69)); [|reflexivity].
  destruct s as [|d t]; cbn [app].
  { space_cases a Ha; reflexivity. }
  destruct ((d =? 43) || (d =? 45)).
  - rewrite digits_push. destruct (digits t) as [[|x ds] r]; reflexivity.
  - change (d :: t ++ [a]) with ((d :: t) ++ [a]).
    rewrite digits_push. destruct (digits (d :: t)) as [[|x ds] r]; reflexivity.
Qed.

Lemma lex_tail_push (sign s0 : jsstring) :
  match lex_int (s0 ++ [a]) with
  | Some (i, s1) =>
      match lex_frac s1 with
      | Some (f, s2) =>
          match lex_exp s2 with
          | Some (e, s3) => Some (sign ++ i ++ f ++ e, s3)
          | None => None
          end
      | None => None
      end
  | None => None
  end =
  push a
    match lex_int s0 with
    | Some (i, s1) =>
        match lex_frac s1 with
        | Some (f, s2) =>
            match lex_exp s2 with
            | Some (e, s3) => Some (sign ++ i ++ f ++ e, s3)
            | None => None
            end
        | None => None
        end
    | None => None
    end.
Proof.
  rewrite lex_int_push. destruct (lex_int s0) as [[i s1]|]; [|reflexivity].
  cbn [push]. rewrite lex_frac_push.
  destruct (lex_frac s1) as [[f s2]|]; [|reflexivity].
  cbn [push]. rewrite lex_exp_push.
  destruct (lex_exp s2) as [[e s3]|]; reflexivity.
Qed.

Lemma lex_number_push (s : jsstring) :
  lex_number (s ++ [a]) = push a (lex_number s).
Proof.
  unfold lex_number. destruct s as [|c s]; cbn [app].
  { space_cases a Ha; reflexivity. }
  destruct (c =? 45).
  - apply lex_tail_push.
  - apply (lex_tail_push [] (c :: s)).
Qed.

Lemma startsWith_push (p s : jsstring) :
  forallb (fun x => negb (x =? a)) p = true ->
  startsWith p (s ++ [a]) = startsWith p s.
Proof.
  revert s. induction p as [|x p IH]; intros s H; [reflexivity|].
  cbn [forallb] in H. apply andb_true_iff in H as [Hx Hp].
  destruct s as [|y s]; cbn [app startsWith].
  - apply negb_true_iff in Hx. now rewrite Hx.
  - now rewrite IH.
Qed.

Lemma lex_literal_push (s : jsstring) :
  lex_literal (s ++ [a]) = push a (lex_literal s).
Proof.
  unfold lex_literal.
  rewrite !startsWith_push by (space_cases a Ha; reflexivity).
  destruct (startsWith (js "true") s) eqn:T.
  { destruct (startsWith_prefix _ _ T) as [t ->]. reflexivity. }
  destruct (startsWith (js "false") s) eqn:F.
  { destruct (startsWith_prefix _ _ F) as [t ->]. reflexivity. }
  destruct (startsWith (js "null") s) eqn:U; [|reflexivity].
  destruct (startsWith_prefix _ _ U) as [t ->]. reflexivity.
Qed.

(** A trailing space is left untouched by the parser. *)
Lemma parse_push (f : nat) :
  (forall s, parse_value f (s ++ [a]) = pushP a (parse_value f s)) /\
  (forall acc s,
      parse_elements f acc (s ++ [a]) = pushP a (parse_elements f acc s)) /\
  (forall acc s,
      parse_members f acc (s ++ [a]) = pushP a (parse_members f acc s)).
Proof.
  induction f as [|f (IHv & IHe & IHm)]; [repeat split; reflexivity|].
  repeat split.
  - intros s. cbn [parse_value]. rewrite skip_ws_push.
    destruct (skip_ws s) as [|c s1]; [reflexivity|].
    destruct (c =? 123).
    { rewrite skip_ws_push. destruct (skip_ws s1) as [|d s2]; [reflexivity|].
      destruct (d =? 125); [reflexivity|apply IHm]. }
    destruct (c =? 91).
    { rewrite skip_ws_push. destruct (skip_ws s1) as [|d s2]; [reflexivity|].
      destruct (d =? 93); [reflexivity|apply IHe]. }
    destruct (c =? 34).
    { rewrite lex_string_push.
      destruct (lex_string s1) as [[? ?]|]; reflexivity. }
    change (c :: s1 ++ [a]) with ((c :: s1) ++ [a]).
    destruct ((c =? 45) || isDigit c).
    { rewrite lex_number_push.
      destruct (lex_number (c :: s1)) as [[? ?]|]; reflexivity. }
    rewrite lex_literal_push.
    destruct (lex_literal (c :: s1)) as [[? ?]|]; reflexivity.
  - intros acc s. cbn [parse_elements]. rewrite IHv.
    destruct (parse_value f s) as [[v1 s1]| |]; cbn [pushP]; try reflexivity.
    rewrite skip_ws_push. destruct (skip_ws s1) as [|c s2]; [reflexivity|].
    destruct (c =? 44); [apply IHe|].
    destruct (c =? 93); reflexivity.
  - intros acc s. cbn [parse_members]. rewrite skip_ws_push.
    destruct (skip_ws s) as [|q s1]; [reflexivity|].
    destruct (q =? 34); [|reflexivity].
    rewrite lex_string_push.
    destruct (lex_string s1) as [[k s2]|]; cbn [push]; [|reflexivity].
    rewrite skip_ws_push. destruct (skip_ws s2) as [|c s3]; [reflexivity|].
    destruct (c =? 58); [|reflexivity].
    rewrite IHv.
    destruct (parse_value f s3) as [[v1 s4]| |]; cbn [pushP]; try reflexivity.
    rewrite skip_ws_push. destruct (skip_ws s4) as [|d s5]; [reflexivity|].
    destruct (d =? 44); [apply IHm|].
    destruct (d =? 125); reflexivity.
Qed.

End TrailingSpace.

(** More fuel does not change an outcome that is not [OutOfFuel]. *)
Lemma parse_fuel_mono (f : nat) :
  (forall s f', (f <= f')%nat -> parse_value f s <> OutOfFuel ->
                parse_value f' s = parse_value f s) /\
  (forall acc s f', (f <= f')%nat -> parse_elements f acc s <> OutOfFuel ->
                    parse_elements f' acc s = parse_elements f acc s) /\
  (forall acc s f', (f <= f')%nat -> parse_members f acc s <> OutOfFuel ->
                    parse_members f' acc s = parse_members f acc s).
Proof.
  induction f as [|f (IHv & IHe & IHm)];
    [repeat split; intros; cbn in *; congruence|].
  repeat split.
  - intros s [|f'] Hle; [lia|]. cbn [parse_value].
    destruct (skip_ws s) as [|c s1]; [reflexivity|].
    destruct (c =? 123).
    { destruct (skip_ws s1) as [|d s2]; [reflexivity|].
      destruct (d =? 125); [reflexivity|]. apply IHm. lia. }
    destruct (c =? 91).
    { destruct (skip_ws s1) as [|d s2]; [reflexivity|].
      destruct (d =? 93); [reflexivity|]. apply IHe. lia. }
    reflexivity.
  - intros acc s [|f'] Hle; [lia|]. cbn [parse_elements].
    destruct (parse_value f s) as [[v1 s1]| |] eqn:V; [| |congruence];
      (rewrite (IHv s f') by (lia || (rewrite V; discriminate)));
      rewrite V; [|reflexivity].
    destruct (skip_ws s1) as [|c s2]; [reflexivity|].
    destruct (c =? 44); [|reflexivity]. apply IHe. lia.
  - intros acc s [|f'] Hle; [lia|]. cbn [parse_members].
    destruct (skip_ws s) as [|q s1]; [reflexivity|].
    destruct (q =? 34); [|reflexivity].
    destruct (lex_string s1) as [[k s2]|]; [|reflexivity].
    destruct (skip_ws s2) as [|c s3]; [reflexivity|].
    destruct (c =? 58); [|reflexivity].
    destruct (parse_value f s3) as [[v1 s4]| |] eqn:V; [| |congruence];
      (rewrite (IHv s3 f') by (lia || (rewrite V; discriminate)));
      rewrite V; [|reflexivity].
    destruct (skip_ws s4) as [|d s5]; [reflexivity|].
    destruct (d =? 44); [|reflexivity]. apply IHm. lia.
Qed.

Lemma parse_value_fuel (text : jsstring) (f : nat) :
  (2 * List.length text + 1 <= f)%nat ->
  parse_value f text = parse_value (2 * List.length text + 1) text.
Proof.
  intros H. apply parse_fuel_mono; [exact H|]. apply parse_fuel. lia.
Qed.

Lemma skip_ws_spec (s : jsstring) :
  exists u, s = u ++ skip_ws s /\ forallb isJSONSpace u = true.
Proof.
  induction s as [|c s (u & E & Hu)]; simpl.
  - now exists [].
  - destruct (isJSONSpace c) eqn:C.
    + exists (c :: u). simpl. rewrite C, Hu. now rewrite E at 1.
    + now exists [].
Qed.

Lemma skip_ws_leading (u s : jsstring) :
  forallb isJSONSpace u = true -> skip_ws (u ++ s) = skip_ws s.
Proof.
  induction u as [|c u IH]; simpl; [reflexivity|].
  intros H. apply andb_true_iff in H as [-> H]. now apply IH.
Qed.

(** Leading JSON white space is skipped. *)
Lemma parse_value_leading (f : nat) (u s : jsstring) :
  forallb isJSONSpace u = true ->
  parse_value f (u ++ s) = parse_value f s.
Proof.
  intros H. destruct f; [reflexivity|]. cbn [parse_value].
  now rewrite skip_ws_leading.
Qed.

(** Trailing JSON white space is left over. *)
Lemma parse_value_trailing (f : nat) (s w : jsstring) :
  forallb isJSONSpace w = true ->
  parse_value f (s ++ w) =
  match parse_value f s with
  | Parsed (v, r) => Parsed (v, r ++ w)
  | SyntaxError => SyntaxError
  | OutOfFuel => OutOfFuel
  end.
Proof.
  revert s. induction w as [|a w IH]; intros s H.
  - rewrite app_nil_r. destruct (parse_value f s) as [[v r]| |];
      [now rewrite app_nil_r|reflexivity..].
  - cbn [forallb] in H. apply andb_true_iff in H as [Ha Hw].
    replace (s ++ a :: w) with ((s ++ [a]) ++ w) by reassoc.
    rewrite (IH _ Hw), (proj1 (parse_push a Ha f)).
    destruct (parse_value f s) as [[v r]| |]; cbn [pushP]; [|reflexivity..].
    f_equal. f_equal. reassoc.
Qed.

Lemma skip_ws_trailing (r w : jsstring) :
  forallb isJSONSpace w = true ->
  skip_ws r = [] -> skip_ws (r ++ w) = [].
Proof.
  intros Hw Hr. rewrite skip_ws_leading by now apply skip_ws_nil.
  rewrite <- (app_nil_r w). rewrite skip_ws_leading by exact Hw. reflexivity.
Qed.

Lemma skip_ws_trailing_cons (r w : jsstring) (c : codeunit) (t : jsstring) :
  skip_ws r = c :: t -> skip_ws (r ++ w) = c :: t ++ w.
Proof.
  induction r as [|x r IH]; simpl; [discriminate|].
  destruct (isJSONSpace x); [exact IH|]. now intros [= -> ->].
Qed.

(** JSON white space around a text does not matter to [JSON.parse]. *)
Theorem JSON_parse_spaces (u t w : jsstring) :
  forallb isJSONSpace u = true ->
  forallb isJSONSpace w = true ->
  JSON_parse (u ++ t ++ w) = JSON_parse t.
Proof.
  intros Hu Hw. unfold JSON_parse.
  rewrite (parse_value_leading _ u (t ++ w) Hu).
  rewrite (parse_value_trailing _ t w Hw).
  rewrite (parse_value_fuel t (2 * List.length (u ++ t ++ w) + 1))
    by (rewrite !length_app; lia).
  destruct (parse_value (2 * List.length t + 1) t) as [[v r]| |];
    [|reflexivity..].
  destruct (skip_ws r) as [|c r'] eqn:R.
  - now rewrite (skip_ws_trailing r w Hw R).
  - now rewrite (skip_ws_trailing_cons r w c r' R).
Qed.

(** A value begins with a code unit that is not white space. *)
Lemma parse_value_head (f : nat) (s : jsstring) (x : JSValue * jsstring) :
  parse_value f s = Parsed x ->
  exists c s1, skip_ws s = c :: s1 /\ isWhiteSpace c = false.
Proof.
  destruct f; [discriminate|]. cbn [parse_value].
  destruct (skip_ws s) as [|c s1]; [discriminate|].
  intros H. exists c, s1. split; [reflexivity|].
  destruct (N.eqb_spec c 123) as [->|_]; [reflexivity|].
  destruct (N.eqb_spec c 91) as [->|_]; [reflexivity|].
  destruct (N.eqb_spec c 34) as [->|_]; [reflexivity|].
  destruct ((c =? 45) || isDigit c) eqn:D.
  { apply orb_true_iff in D as [D|D].
    - apply N.eqb_eq in D. now subst.
    - now apply isDigit_not_space. }
  unfold lex_literal in H.
  destruct (startsWith (js "true") (c :: s1)) eqn:T.
  { cbn -[N.eqb] in T. apply andb_true_iff in T as [T _].
    apply N.eqb_eq in T. now subst. }
  destruct (startsWith (js "false") (c :: s1)) eqn:F.
  { cbn -[N.eqb] in F. apply andb_true_iff in F as [F _].
    apply N.eqb_eq in F. now subst. }
  destruct (startsWith (js "null") (c :: s1)) eqn:U; [|discriminate].
  cbn -[N.eqb] in U. apply andb_true_iff in U as [U _].
  apply N.eqb_eq in U. now subst.
Qed.

Lemma spaces_whitespace (u : jsstring) :
  forallb isJSONSpace u = true -> forallb isWhiteSpace u = true.
Proof.
  rewrite !forallb_forall. intros H x Hx.
  now apply isJSONSpace_isWhiteSpace, H.
Qed.

(** Trimming a text that [JSON.parse] accepts takes nothing away that
    the parser needs: the trimmed text parses to the same value. *)
Theorem JSON_parse_trim (text : jsstring) (v : JSValue) :
  JSON_parse text = Parsed v -> JSON_parse (trim text) = Parsed v.
Proof.
  intros H.
  assert (Hd : exists c s1, skip_ws text = c :: s1 /\ isWhiteSpace c = false).
  { unfold JSON_parse in H.
    destruct (parse_value _ text) as [x| |] eqn:P; try discriminate.
    now apply parse_value_head in P. }
  destruct Hd as (c & s1 & W & Hc).
  destruct (skip_ws_spec text) as (u & E & Hu). rewrite W in E.
  assert (H1 : JSON_parse (c :: s1) = Parsed v).
  { rewrite <- H, E. rewrite <- (app_nil_r (c :: s1)) at 2.
    symmetry. now apply JSON_parse_spaces. }
  destruct (JSON_parse_end _ _ H1) as (p & x & w & E1 & Hx & Hw).
  assert (T : trim text = p ++ [x]).
  { unfold trim. rewrite E at 1.
    rewrite (trimStart_skip u c s1 (spaces_whitespace u Hu) Hc), E1.
    apply trimEnd_strip; [now apply spaces_whitespace|].
    now apply isValueEnd_not_space. }
  rewrite T, <- H1, E1.
  replace (p ++ x :: w) with ([] ++ (p ++ [x]) ++ w) by reassoc.
  symmetry. now apply JSON_parse_spaces.
Qed.

End JSONFacts.

(** ** The symptom analyzer *)

Module AnalyzerFacts.
Import JSString JSStringFacts JSON JSONFacts Analyzer Examples.

Lemma delimiter_nonempty : delimiter <> [].
Proof. discriminate. Qed.

(** The [try] block goes through when the first piece, trimmed, parses
    to anything but [null]. *)
Lemma tryParse_parsed (text j : jsstring) (rest : list jsstring) (v : JSValue) :
  split text delimiter = j :: rest ->
  JSON_parse (trim j) = Parsed v ->
  v <> JSNull ->
  tryParse text =
  ret {| isSerious := member v (js "isSerious");
         explanation := match rest with
                        | [] => JSUndefined
                        | m :: _ => JSString (trim m)
                        end;
         suggestImmediateAction := member v (js "suggestImmediateAction") |}.
Proof.
  intros S P N. unfold tryParse, parseJSON. rewrite S. cbn [map].
  rewrite P. cbn [bind ret].
  assert (U : v <> JSUndefined) by (intros ->; exact (JSON_parse_defined _ P)).
  destruct rest; destruct v; try congruence; reflexivity.
Qed.

(** The [try] block throws when the first piece, trimmed, is rejected or
    parses to [null]. *)
Lemma tryParse_throws (text : jsstring) :
  JSON_parse (trim (jsonSegment text)) = SyntaxError \/
  JSON_parse (trim (jsonSegment text)) = Parsed JSNull ->
  exists e, tryParse text = throw e.
Proof.
  unfold jsonSegment, tryParse, parseJSON.
  destruct (split text delimiter) as [|j rest]; [now exists JSONSyntaxError|].
  cbn [hd map]. intros [-> | ->]; cbn [bind ret].
  - now exists JSONSyntaxError.
  - now exists TypeError.
Qed.

Section WithCaseConversion.
Context {CC : CaseConversion}.

Lemma interpret_parsed (text : jsstring) (out : SymptomAnalysisOutput) :
  tryParse text = ret out -> interpret text = ret out.
Proof. unfold interpret. now intros ->. Qed.

Lemma interpret_thrown (text : jsstring) (e : Exn) :
  tryParse text = throw e -> interpret text = ret (fallback text).
Proof. unfold interpret. now intros ->. Qed.

Lemma analyzeSymptoms_reply (client : TextGenerationClient)
  (genAI : GoogleGenerativeAI) (input : SymptomAnalysisInput)
  (text : jsstring) :
  client (request genAI input) = ret text ->
  analyzeSymptoms client genAI input = interpret text.
Proof. unfold analyzeSymptoms. now intros ->. Qed.

(** When the text before the first delimiter parses to an object, the
    explanation is the second piece of the split, trimmed: the text from
    the first delimiter up to the next one, or to the end. *)
Lemma tryParse_second_piece (j m : jsstring)
  (props : list (jsstring * JSValue)) :
  includes j delimiter = false ->
  JSON_parse j = Parsed (JSObject props) ->
  tryParse (j ++ delimiter ++ m) =
  ret {| isSerious := getProperty props (js "isSerious");
         explanation := JSString (trim (hd [] (split m delimiter)));
         suggestImmediateAction :=
           getProperty props (js "suggestImmediateAction") |}.
Proof.
  intros Hj P. apply JSON_parse_trim in P.
  assert (S : split (j ++ delimiter ++ m) delimiter = j :: split m delimiter).
  { apply (split_first delimiter j m delimiter_nonempty).
    exact (no_dash_straddle j Hj (parsed_segment_no_dash j _ P)). }
  rewrite (tryParse_parsed _ j (split m delimiter) (JSObject props) S P)
    by discriminate.
  destruct (split m delimiter) eqn:E; [|reflexivity].
  now apply split_nonempty in E.
Qed.

(** A response of the form json, delimiter, markdown, with the delimiter
    nowhere else, whose JSON segment is an object. *)
Lemma tryParse_delimited (j m : jsstring) (props : list (jsstring * JSValue)) :
  includes j delimiter = false ->
  includes m delimiter = false ->
  JSON_parse j = Parsed (JSObject props) ->
  tryParse (j ++ delimiter ++ m) =
  ret {| isSerious := getProperty props (js "isSerious");
         explanation := JSString (trim m);
         suggestImmediateAction :=
           getProperty props (js "suggestImmediateAction") |}.
Proof.
  intros Hj Hm P. rewrite (tryParse_second_piece j m props Hj P).
  now rewrite (split_none delimiter m delimiter_nonempty Hm).
Qed.

(** The round trip on a response with a single delimiter: a JSON
    segment, the three-dash delimiter and a markdown segment that holds
    no further delimiter.  When the JSON segment parses to an object
    whose [isSerious] and [suggestImmediateAction] are booleans,
    [analyzeSymptoms] returns those two booleans and the trimmed markdown
    segment as explanation. *)
Theorem analyze_delimited_roundtrip
  (client : TextGenerationClient) (genAI : GoogleGenerativeAI)
  (input : SymptomAnalysisInput) (j m : jsstring)
  (props : list (jsstring * JSValue)) (b1 b2 : bool) :
  client (request genAI input) = ret (j ++ delimiter ++ m) ->
  includes j delimiter = false ->
  includes m delimiter = false ->
  JSON_parse j = Parsed (JSObject props) ->
  getProperty props (js "isSerious") = JSBool b1 ->
  getProperty props (js "suggestImmediateAction") = JSBool b2 ->
  analyzeSymptoms client genAI input =
  ret {| isSerious := JSBool b1;
         explanation := JSString (trim m);
         suggestImmediateAction := JSBool b2 |}.
Proof.
  intros R Hj Hm P H1 H2.
  rewrite (analyzeSymptoms_reply _ _ _ _ R).
  apply interpret_parsed.
  rewrite (tryParse_delimited j m props Hj Hm P). now rewrite H1, H2.
Qed.

(** C10.  When the response holds no delimiter and the whole text parses
    as a JSON object, the [try] block returns: the fallback is not taken
    and the explanation is [undefined], not the response text. *)
Theorem analyze_json_without_delimiter
  (client : TextGenerationClient) (genAI : GoogleGenerativeAI)
  (input : SymptomAnalysisInput) (text : jsstring)
  (props : list (jsstring * JSValue)) :
  client (request genAI input) = ret text ->
  includes text delimiter = false ->
  JSON_parse text = Parsed (JSObject props) ->
  let out := {| isSerious := getProperty props (js "isSerious");
                explanation := JSUndefined;
                suggestImmediateAction :=
                  getProperty props (js "suggestImmediateAction") |} in
  tryParse text = ret out
  /\ analyzeSymptoms client genAI input = ret out
  /\ analyzeSymptoms client genAI input <> ret (fallback text).
Proof.
  intros R Hd P out. apply JSON_parse_trim in P.
  assert (T : tryParse text = ret out).
  { rewrite (tryParse_parsed text text [] (JSObject props));
      [reflexivity| |exact P|discriminate].
    now apply split_none. }
  rewrite (analyzeSymptoms_reply _ _ _ _ R), (interpret_parsed _ _ T).
  repeat split; [exact T|]. discriminate.
Qed.

(** The whole of the [try]/[catch]: what [JSON.parse] makes of the first
    piece, trimmed, decides between the destructured value and the
    fallback. *)
Lemma interpret_cases (text : jsstring) :
  match JSON_parse (trim (jsonSegment text)) with
  | Parsed JSNull | SyntaxError | OutOfFuel =>
      interpret text = ret (fallback text)
  | Parsed v =>
      interpret text =
      ret {| isSerious := member v (js "isSerious");
             explanation := match tl (split text delimiter) with
                            | [] => JSUndefined
                            | m :: _ => JSString (trim m)
                            end;
             suggestImmediateAction :=
               member v (js "suggestImmediateAction") |}
  end.
Proof.
  unfold jsonSegment.
  destruct (split text delimiter) as [|j rest] eqn:S;
    [now apply split_nonempty in S|].
  cbn [hd tl].
  destruct (JSON_parse (trim j)) as [v| |] eqn:P.
  - assert (V : v <> JSNull -> interpret text = ret
       {| isSerious := member v (js "isSerious");
          explanation := match rest with
                         | [] => JSUndefined
                         | m :: _ => JSString (trim m)
                         end;
          suggestImmediateAction := member v (js "suggestImmediateAction") |}).
    { intros N. apply interpret_parsed. now apply (tryParse_parsed text j). }
    destruct v; try (apply V; discriminate).
    destruct (tryParse_throws text) as [e E].
    { right. unfold jsonSegment. now rewrite S. }
    exact (interpret_thrown _ _ E).
  - destruct (tryParse_throws text) as [e E].
    { left. unfold jsonSegment. now rewrite S. }
    exact (interpret_thrown _ _ E).
  - now apply JSON_parse_total in P.
Qed.

(** C2, amended.  On a response whose first segment, trimmed, is rejected
    by [JSON.parse] or parses to [null], the result is the fallback: two
    booleans and the raw response text as explanation, which is empty
    exactly when the response is.  On a response that the split cuts
    into at least two pieces and whose first piece, trimmed, parses to an
    object with boolean [isSerious] and [suggestImmediateAction], the
    result holds those two booleans and a string, possibly empty, as
    explanation; when the split yields exactly two pieces the
    explanation is the second piece, trimmed. *)
Theorem analyze_output_shape
  (client : TextGenerationClient) (genAI : GoogleGenerativeAI)
  (input : SymptomAnalysisInput) (text : jsstring) :
  client (request genAI input) = ret text ->
  (JSON_parse (trim (jsonSegment text)) = SyntaxError
   \/ JSON_parse (trim (jsonSegment text)) = Parsed JSNull ->
   exists out,
     analyzeSymptoms client genAI input = ret out
     /\ isBoolean (isSerious out) = true
     /\ isBoolean (suggestImmediateAction out) = true
     /\ explanation out = JSString text
     /\ (isNonEmptyString (explanation out) = true <-> text <> []))
  /\ (forall j m rest props b1 b2,
        split text delimiter = j :: m :: rest ->
        JSON_parse (trim j) = Parsed (JSObject props) ->
        getProperty props (js "isSerious") = JSBool b1 ->
        getProperty props (js "suggestImmediateAction") = JSBool b2 ->
        exists out,
          analyzeSymptoms client genAI input = ret out
          /\ isSerious out = JSBool b1
          /\ suggestImmediateAction out = JSBool b2
          /\ isString (explanation out) = true
          /\ (rest = [] -> explanation out = JSString (trim m))).
Proof.
  intros R. split.
  - intros H. destruct (tryParse_throws text H) as [e E].
    exists (fallback text).
    rewrite (analyzeSymptoms_reply _ _ _ _ R), (interpret_thrown _ _ E).
    repeat split.
    + destruct text; [discriminate|intros _; discriminate].
    + destruct text; [congruence|reflexivity].
  - intros j m rest props b1 b2 S P H1 H2.
    exists {| isSerious := JSBool b1;
              explanation := JSString (trim m);
              suggestImmediateAction := JSBool b2 |}.
    rewrite (analyzeSymptoms_reply _ _ _ _ R).
    rewrite (interpret_parsed text _
               (tryParse_parsed text j (m :: rest) (JSObject props) S P
                  ltac:(discriminate))).
    cbn [member]. rewrite H1, H2. repeat split.
Qed.

(** C5, as the code has it: the photo never reaches the request.  The
    same request is sent, and the same result comes back, with or without
    a photo. *)
Theorem photo_not_submitted
  (client : TextGenerationClient) (genAI : GoogleGenerativeAI)
  (s photo : jsstring) :
  request genAI {| symptoms := s; photoDataUri := Some photo |}
  = request genAI {| symptoms := s; photoDataUri := None |}
  /\ analyzeSymptoms client genAI
       {| symptoms := s; photoDataUri := Some photo |}
     = analyzeSymptoms client genAI
         {| symptoms := s; photoDataUri := None |}.
Proof. split; reflexivity. Qed.

(** C9.  Without the key the module does not load: the guard throws
    before [genAI] exists, so a process started without it ends in that
    error whatever the service would have answered; and every request
    of a loaded module carries the non-empty key it was loaded with. *)
Theorem missing_key_fails_at_load :
  loadModule {| NEXT_PUBLIC_GOOGLE_AI_API_KEY := None |}
  = throw (Error (js "GOOGLE_AI_API_KEY is not set"))
  /\ (forall client input,
        run client {| NEXT_PUBLIC_GOOGLE_AI_API_KEY := None |} input
        = throw (Error (js "GOOGLE_AI_API_KEY is not set")))
  /\ (forall env genAI,
        loadModule env = ret genAI ->
        exists k,
          NEXT_PUBLIC_GOOGLE_AI_API_KEY env = Some k /\ k <> []
          /\ forall input, req_apiKey (request genAI input) = k).
Proof.
  repeat split.
  intros [[[|c k]|]] genAI; cbn; try discriminate.
  intros [= <-]. exists (c :: k). repeat split. discriminate.
Qed.

End WithCaseConversion.

(** The spec's round trip, with its single delimiter. *)
Lemma analyze_delimited_roundtrip_example :
  analyzeSymptoms (CC := basicLatin)
    (replying (verdictSegment ++ delimiter ++ markdownSegment))
    exampleGenAI exampleInput =
  ret {| isSerious := JSBool true;
         explanation := JSString (trim markdownSegment);
         suggestImmediateAction := JSBool false |}.
Proof.
  apply (analyze_delimited_roundtrip (CC := basicLatin) _ _ _
           verdictSegment markdownSegment
           [(js "isSerious", JSBool true);
            (js "suggestImmediateAction", JSBool false)]);
    vm_compute; reflexivity.
Defined.

(** A response that is only the verdict, through C10. *)
Lemma analyze_json_without_delimiter_example :
  tryParse verdictJSON =
  ret {| isSerious := JSBool true;
         explanation := JSUndefined;
         suggestImmediateAction := JSBool false |}.
Proof.
  apply (analyze_json_without_delimiter (CC := basicLatin)
           (replying verdictJSON) exampleGenAI exampleInput verdictJSON
           [(js "isSerious", JSBool true);
            (js "suggestImmediateAction", JSBool false)]);
    vm_compute; reflexivity.
Defined.

(** C2 as stated fails: with symptoms given, an empty response goes to
    the fallback, whose explanation is the response text, the empty
    string. *)
Lemma empty_response_empty_explanation :
  exists out,
    symptoms exampleInput = js "persistent cough and mild fever"
    /\ analyzeSymptoms (CC := basicLatin) (replying []) exampleGenAI
         exampleInput = ret out
    /\ explanation out = JSString []
    /\ isNonEmptyString (explanation out) = false.
Proof. eexists. repeat split. Qed.

(** The fallback on a response that is no JSON, through the amended C2. *)
Lemma analyze_output_shape_example :
  exists out,
    analyzeSymptoms (CC := basicLatin)
      (replying (js "This looks severe: call emergency services."))
      exampleGenAI exampleInput = ret out
    /\ isBoolean (isSerious out) = true
    /\ isBoolean (suggestImmediateAction out) = true
    /\ explanation out
       = JSString (js "This looks severe: call emergency services.")
    /\ (isNonEmptyString (explanation out) = true
        <-> js "This looks severe: call emergency services." <> []).
Proof.
  apply (analyze_output_shape (CC := basicLatin)
           (replying (js "This looks severe: call emergency services."))
           exampleGenAI exampleInput _ eq_refl).
  left. vm_compute. reflexivity.
Defined.

(** C3, at its failing inputs.  A response without delimiter that is
    valid JSON and holds the word emergency does not reach the fallback:
    [suggestImmediateAction] is what the JSON says and the explanation is
    [undefined].  A JSON segment of another shape does not reach it
    either: both flags are [undefined]. *)
Theorem fallback_not_reached :
  includes onlyJSONResponse delimiter = false
  /\ includes (toLowerCase (CaseConversion := basicLatin) onlyJSONResponse)
       (js "emergency") = true
  /\ analyzeSymptoms (CC := basicLatin) (replying onlyJSONResponse)
       exampleGenAI exampleInput
     = ret {| isSerious := JSBool false;
              explanation := JSUndefined;
              suggestImmediateAction := JSBool false |}
  /\ analyzeSymptoms (CC := basicLatin) (replying wrongShapeResponse)
       exampleGenAI exampleInput
     = ret {| isSerious := JSUndefined;
              explanation := JSString (js "# Likely Cause
Possible emergency.");
              suggestImmediateAction := JSUndefined |}.
Proof. repeat split. Qed.

(** C4, at its failing input.  The text is cut at every delimiter and the
    second piece alone is the explanation: what follows a later delimiter
    is lost. *)
Theorem explanation_cut_at_second_delimiter :
  analyzeSymptoms (CC := basicLatin)
    (replying (verdictSegment ++ delimiter ++ ruledMarkdown))
    exampleGenAI exampleInput
  = ret {| isSerious := JSBool true;
           explanation := JSString (js "# Likely Cause
A common cold.");
           suggestImmediateAction := JSBool false |}
  /\ trim ruledMarkdown = js "# Likely Cause
A common cold.
---
# When to Seek Help
- Fever above 39 degrees".
Proof. split; vm_compute; reflexivity. Qed.

(** C1, at its failing input.  The response is the verdict, the
    delimiter and a markdown segment; the JSON segment parses to an
    object with the two boolean fields, and the two flags come back as
    parsed.  But the markdown segment holds a horizontal rule, and the
    explanation is not that segment trimmed: it stops at the rule. *)
Theorem roundtrip_loses_markdown_after_rule :
  jsonSegment (verdictSegment ++ delimiter ++ ruledMarkdown) = verdictSegment
  /\ JSON_parse verdictSegment
     = Parsed (JSObject [(js "isSerious", JSBool true);
                         (js "suggestImmediateAction", JSBool false)])
  /\ (exists out,
        analyzeSymptoms (CC := basicLatin)
          (replying (verdictSegment ++ delimiter ++ ruledMarkdown))
          exampleGenAI exampleInput = ret out
        /\ isSerious out = JSBool true
        /\ suggestImmediateAction out = JSBool false
        /\ explanation out = JSString (js "# Likely Cause
A common cold."))
  /\ JSString.eqb (js "# Likely Cause
A common cold.") (trim ruledMarkdown) = false.
Proof.
  split; [vm_compute; reflexivity|].
  split; [vm_compute; reflexivity|].
  split; [|vm_compute; reflexivity].
  eexists. split; [vm_compute; reflexivity|]. repeat split.
Qed.

End AnalyzerFacts.

(** ** The practitioner lookup *)

Module PractitionersFacts.
Import JSString JSStringFacts Practitioners Examples.

Lemma Practitioner_eqb_eq (p q : Practitioner) :
  Practitioner_eqb p q = true <-> p = q.
Proof.
  unfold Practitioner_eqb. destruct p, q; simpl.
  rewrite !andb_true_iff, !eqb_eq, Bool.eqb_true_iff.
  split; [intros [[[[-> ->] ->] ->] ->]; reflexivity|].
  intros [= -> -> -> -> ->]. repeat split.
Qed.

Lemma practitioners_eqb_eq (l m : list Practitioner) :
  practitioners_eqb l m = true <-> l = m.
Proof.
  revert m. induction l as [|p l IH]; intros [|q m]; simpl;
    try (split; [discriminate|discriminate]); [now split|].
  rewrite andb_true_iff, Practitioner_eqb_eq, IH.
  split; [intros [-> ->]; reflexivity|intros [= -> ->]; now split].
Qed.

Section WithCaseConversion.
Context {CC : CaseConversion}.

Lemma toLowerCase_Ireland : toLowerCase (js "Ireland") = js "ireland".
Proof. now rewrite toLowerCase_ascii. Qed.

Lemma toLowerCase_empty : toLowerCase [] = [].
Proof. now rewrite toLowerCase_ascii. Qed.

(** The location a string query is matched on: its lower-cased form,
    or [ireland] for the empty query, which holds no city name. *)
Lemma location_of_query (q : jsstring) :
  location {| locationQuery := Some q |} = toLowerCase q
  \/ (q = [] /\ location {| locationQuery := Some q |} = js "ireland").
Proof.
  unfold location. destruct q as [|c q]; cbn [orIreland locationQuery].
  - right. split; [reflexivity|apply toLowerCase_Ireland].
  - now left.
Qed.

Lemma pick_of_query (q : jsstring) :
  practitioners (findPractitioners {| locationQuery := Some q |})
  = pick (toLowerCase q).
Proof.
  unfold findPractitioners. cbn [practitioners].
  destruct (location_of_query q) as [->|[-> ->]]; [reflexivity|].
  now rewrite toLowerCase_empty.
Qed.

(** C6.  The lower-cased query is tested for dublin, then cork, then
    galway, and the first match decides: a query whose lower-cased form
    holds dublin gets the Dublin group, four records in their declared
    order; one that holds cork and not dublin gets the Cork group, three
    records; one that holds galway and neither of the others gets the
    Galway group. *)
Theorem findPractitioners_priority (q : jsstring) :
  (includes (toLowerCase q) (js "dublin") = true ->
   practitioners (findPractitioners {| locationQuery := Some q |}) = dublin)
  /\ (includes (toLowerCase q) (js "dublin") = false ->
      includes (toLowerCase q) (js "cork") = true ->
      practitioners (findPractitioners {| locationQuery := Some q |}) = cork)
  /\ (includes (toLowerCase q) (js "dublin") = false ->
      includes (toLowerCase q) (js "cork") = false ->
      includes (toLowerCase q) (js "galway") = true ->
      practitioners (findPractitioners {| locationQuery := Some q |}) = galway)
  /\ List.length dublin = 4%nat /\ List.length cork = 3%nat.
Proof.
  rewrite pick_of_query. unfold pick.
  repeat split; intros; repeat match goal with H : _ = _ |- _ => rewrite H end;
    reflexivity.
Qed.

(** C7, amended.  A query that matches none of the three cities, the
    empty query and the absent query all get the same five records:
    index 0 of Dublin, of Cork and of Galway, then index 2 of Dublin and
    index 2 of Cork. *)
Theorem findPractitioners_default_sample :
  let sample :=
    [ at_ dublin 0; at_ cork 0; at_ galway 0; at_ dublin 2; at_ cork 2 ] in
  (forall q,
      includes (toLowerCase q) (js "dublin") = false ->
      includes (toLowerCase q) (js "cork") = false ->
      includes (toLowerCase q) (js "galway") = false ->
      practitioners (findPractitioners {| locationQuery := Some q |}) = sample)
  /\ practitioners (findPractitioners {| locationQuery := Some [] |}) = sample
  /\ practitioners (findPractitioners {| locationQuery := None |}) = sample
  /\ List.length sample = 5%nat.
Proof.
  intros sample. repeat split.
  - intros q H1 H2 H3. rewrite pick_of_query. unfold pick.
    now rewrite H1, H2, H3.
  - rewrite pick_of_query, toLowerCase_empty. reflexivity.
  - unfold findPractitioners, location. cbn [practitioners locationQuery orIreland].
    now rewrite toLowerCase_Ireland.
Qed.

(** C8.  The result depends on the query through its lower-cased form
    only: lower-casing the query first changes nothing, and two queries
    with the same lower-cased form get the same records.  The lookup is a
    function of its input; there is no state for a call to change. *)
Theorem findPractitioners_lowercase_invariant :
  (forall q,
      findPractitioners {| locationQuery := Some q |}
      = findPractitioners {| locationQuery := Some (toLowerCase q) |})
  /\ (forall q1 q2,
         toLowerCase q1 = toLowerCase q2 ->
         findPractitioners {| locationQuery := Some q1 |}
         = findPractitioners {| locationQuery := Some q2 |}).
Proof.
  assert (E : forall q, findPractitioners {| locationQuery := Some q |}
                        = {| practitioners := pick (toLowerCase q) |}).
  { intros q. rewrite <- pick_of_query. reflexivity. }
  split.
  - intros q. now rewrite !E, toLowerCase_idem.
  - intros q1 q2 H. now rewrite !E, H.
Qed.

End WithCaseConversion.

(** The spec's two lookups, through C6. *)
Lemma findPractitioners_priority_example :
  practitioners (findPractitioners (CC := basicLatin) (query "Dublin, Ireland"))
  = dublin
  /\ practitioners (findPractitioners (CC := basicLatin) (query "Cork")) = cork.
Proof.
  split.
  - apply (proj1 (findPractitioners_priority (CC := basicLatin)
                    (js "Dublin, Ireland"))).
    reflexivity.
  - apply (proj1 (proj2 (findPractitioners_priority (CC := basicLatin)
                           (js "Cork")))); reflexivity.
Defined.

(** A query that names no city, through the amended C7. *)
Lemma findPractitioners_default_example :
  practitioners (findPractitioners (CC := basicLatin) (query "Atlantis"))
  = [ at_ dublin 0; at_ cork 0; at_ galway 0; at_ dublin 2; at_ cork 2 ].
Proof.
  apply (proj1 (findPractitioners_default_sample (CC := basicLatin)));
    reflexivity.
Defined.

(** C7 as stated fails: whichever of the three groups are taken for the
    cities A, B and C, the records returned for a query without a match
    are not index 0 of A, B, C followed by index 2 of A and index 2 of C.
    The fifth record is index 2 of Cork, whose index 0 is the second. *)
Lemma default_sample_not_as_specified :
  practitioners (findPractitioners (CC := basicLatin) (query "Atlantis"))
  = mixedSample
  /\ existsb (fun A =>
       existsb (fun B =>
         existsb (fun C => practitioners_eqb mixedSample (specSample A B C))
           groups) groups) groups = false
  /\ nth 4 mixedSample noPractitioner = at_ cork 2
  /\ practitioners_eqb mixedSample (specSample dublin cork galway) = false.
Proof. repeat split. Qed.

End PractitionersFacts.

(** ** More on the string built-ins *)

Module StringExtras.
Import JSString JSStringFacts Notions.

Lemma startsWith_short (sep t : jsstring) :
  (List.length t < List.length sep)%nat -> startsWith sep t = false.
Proof.
  revert t. induction sep as [|d sep IH]; intros t H; [simpl in H; lia|].
  destruct t as [|c t]; [reflexivity|]. simpl in *.
  rewrite IH by lia. apply andb_false_r.
Qed.

Lemma includes_short (sep t : jsstring) :
  (List.length t < List.length sep)%nat -> includes t sep = false.
Proof.
  induction t as [|c t IH]; intros H.
  - simpl. rewrite startsWith_short by exact H. reflexivity.
  - cbn [includes]. rewrite startsWith_short by exact H.
    rewrite IH by (simpl in H; lia). reflexivity.
Qed.

Lemma length_removelast (sep : jsstring) :
  sep <> [] -> List.length sep = S (List.length (removelast sep)).
Proof.
  intros H. rewrite (app_removelast_last 0 H) at 1.
  rewrite length_app. simpl. lia.
Qed.

(** An occurrence in a part is an occurrence in the whole. *)
Lemma includes_part (a s b sub : jsstring) :
  includes s sub = true -> includes (a ++ s ++ b) sub = true.
Proof.
  intros H. apply includes_occurrence in H as (x & y & ->).
  replace (a ++ (x ++ sub ++ y) ++ b) with ((a ++ x) ++ sub ++ (y ++ b)).
  - apply includes_app_intro.
  - now rewrite <- !app_assoc.
Qed.

Lemma includes_part_false (a s b sub : jsstring) :
  includes (a ++ s ++ b) sub = false -> includes s sub = false.
Proof.
  intros H. destruct (includes s sub) eqn:E; [|reflexivity].
  now rewrite (includes_part a s b sub E) in H.
Qed.

(** A text that holds the separator splits at its first occurrence. *)
Lemma first_occurrence (sep s : jsstring) :
  sep <> [] -> includes s sep = true ->
  exists j rest, s = j ++ sep ++ rest
                 /\ includes (j ++ removelast sep) sep = false.
Proof.
  intros Hsep. induction s as [|c s IH]; intros H.
  - simpl in H. rewrite orb_false_r in H.
    destruct sep; [congruence|discriminate].
  - destruct (startsWith sep (c :: s)) eqn:E.
    + destruct (startsWith_prefix _ _ E) as [rest ->].
      exists [], rest. split; [reflexivity|].
      apply includes_short. rewrite (length_removelast sep Hsep). simpl. lia.
    + cbn [includes] in H. rewrite E in H. simpl in H.
      destruct (IH H) as (j & rest & -> & Hj).
      exists (c :: j), rest. split; [reflexivity|].
      change ((c :: j) ++ removelast sep) with (c :: j ++ removelast sep).
      cbn [includes]. rewrite Hj, orb_false_r. rewrite <- E.
      rewrite (app_removelast_last 0 Hsep) at 4.
      rewrite <- app_assoc, app_assoc. symmetry.
      apply (startsWith_app_long sep (c :: j ++ removelast sep)).
      simpl. rewrite length_app, (length_removelast sep Hsep). lia.
Qed.

Lemma joinWith_cons (sep p : jsstring) (rest : list jsstring) :
  rest <> [] -> joinWith sep (p :: rest) = p ++ sep ++ joinWith sep rest.
Proof. destruct rest; [congruence|reflexivity]. Qed.

(** Induction on a text along its first occurrences of the separator. *)
Lemma split_ind (sep : jsstring) (P : jsstring -> Prop) :
  sep <> [] ->
  (forall s, includes s sep = false -> P s) ->
  (forall j rest, includes (j ++ removelast sep) sep = false ->
                  P rest -> P (j ++ sep ++ rest)) ->
  forall s, P s.
Proof.
  intros Hsep H0 H1 s.
  remember (List.length s) as n eqn:Hn. revert s Hn.
  induction n as [n IH] using lt_wf_ind. intros s Hn.
  destruct (includes s sep) eqn:E; [|now apply H0].
  destruct (first_occurrence sep s Hsep E) as (j & rest & -> & Hj).
  apply H1; [exact Hj|].
  apply (IH (List.length rest)); [|reflexivity].
  subst n. rewrite !length_app. rewrite (length_removelast sep Hsep). lia.
Qed.

(** No piece of a split holds the separator. *)
Lemma split_pieces_clean (sep s : jsstring) :
  sep <> [] -> Forall (fun p => includes p sep = false) (split s sep).
Proof.
  intros Hsep. revert s. apply (split_ind sep); [exact Hsep| |].
  - intros s H. rewrite (split_none sep s Hsep H). now constructor.
  - intros j rest Hj IH. rewrite (split_first sep j rest Hsep Hj).
    constructor; [|exact IH].
    rewrite <- (app_nil_l (j ++ removelast sep)) in Hj.
    rewrite app_assoc in Hj. rewrite <- app_assoc in Hj.
    exact (includes_part_false [] j (removelast sep) sep Hj).
Qed.

(** The text has the separator exactly when the split has a second
    piece. *)
Lemma split_single (sep s : jsstring) :
  sep <> [] -> (includes s sep = false <-> tl (split s sep) = []).
Proof.
  intros Hsep. split.
  - intros H. now rewrite (split_none sep s Hsep H).
  - intros H. destruct (includes s sep) eqn:E; [|reflexivity].
    destruct (first_occurrence sep s Hsep E) as (j & rest & -> & Hj).
    rewrite (split_first sep j rest Hsep Hj) in H. cbn [tl] in H.
    now apply split_nonempty in H.
Qed.

Lemma joinWith_units (s : jsstring) :
  joinWith [] (map (fun c => [c]) s) = s.
Proof.
  induction s as [|c s IH]; [reflexivity|].
  cbn [map]. destruct s as [|d s]; [reflexivity|].
  rewrite joinWith_cons by discriminate. now rewrite IH.
Qed.

(** X6.  Split and join are inverse: putting the pieces of
    [text.split(sep)] back together with [sep] between them gives the
    text again, so the split drops separators and nothing else. *)
Theorem split_join (sep s : jsstring) : joinWith sep (split s sep) = s.
Proof.
  destruct sep as [|d sep']; [apply joinWith_units|].
  assert (Hsep : d :: sep' <> []) by discriminate.
  revert s. apply (split_ind (d :: sep')); [exact Hsep| |].
  - intros s H. now rewrite (split_none _ s Hsep H).
  - intros j rest Hj IH. rewrite (split_first _ j rest Hsep Hj).
    rewrite joinWith_cons by now apply split_nonempty.
    now rewrite IH.
Qed.

(** *** [trim] leaves no white space at the ends *)

Lemma trimStart_head (s : jsstring) (c : codeunit) (t : jsstring) :
  trimStart s = c :: t -> isWhiteSpace c = false.
Proof.
  induction s as [|a s IH]; simpl; [discriminate|].
  destruct (isWhiteSpace a) eqn:E; [exact IH|]. now intros [= <- _].
Qed.

Lemma trimStart_fixed (c : codeunit) (t : jsstring) :
  isWhiteSpace c = false -> trimStart (c :: t) = c :: t.
Proof. intros H. simpl. now rewrite H. Qed.

Lemma trim_idem (s : jsstring) : trim (trim s) = trim s.
Proof.
  unfold trim at 2 3.
  destruct (trimStart s) as [|a t] eqn:T; [reflexivity|].
  pose proof (trimStart_head s a t T) as Ha.
  unfold trimEnd.
  destruct (trimStart (rev (a :: t))) as [|c r] eqn:R; [reflexivity|].
  pose proof (trimStart_head _ _ _ R) as Hc.
  cbn [rev].
  assert (E : exists w, a :: t = (rev r ++ [c]) ++ w).
  { destruct (trimStart_spec (rev (a :: t))) as (w & E & _).
    rewrite R in E. exists (rev w).
    rewrite <- (rev_involutive (a :: t)), E, rev_app_distr. reflexivity. }
  destruct E as [w E].
  assert (F : trimStart (rev r ++ [c]) = rev r ++ [c]).
  { destruct (rev r) as [|x y]; cbn [app] in *.
    - now apply trimStart_fixed.
    - injection E as -> _. now apply trimStart_fixed. }
  unfold trim. rewrite F.
  replace (rev r ++ [c]) with (rev r ++ c :: []) by reflexivity.
  now apply trimEnd_strip.
Qed.

Lemma trim_keeps_clean (s sub : jsstring) :
  includes s sub = false -> includes (trim s) sub = false.
Proof.
  intros H. destruct (trim_spec s) as (w1 & w2 & E & _).
  rewrite E in H. exact (includes_part_false w1 (trim s) w2 sub H).
Qed.

End StringExtras.

(** ** More on the symptom analyzer *)

Module AnalyzerExtras.
Import JSString JSStringFacts JSON JSONFacts Analyzer Examples.
Import AnalyzerFacts StringExtras.

(** X1.  The [catch] block is entered exactly when [JSON.parse] rejects
    the first piece of the split, trimmed, or parses it to [null]: a
    syntax error and the destructuring of [null] are the only exceptions
    of the [try] block. *)
Theorem tryParse_throws_iff (text : jsstring) :
  (exists e, tryParse text = throw e) <->
  (JSON_parse (trim (jsonSegment text)) = SyntaxError
   \/ JSON_parse (trim (jsonSegment text)) = Parsed JSNull).
Proof.
  split; [|apply tryParse_throws].
  intros [e E]. unfold jsonSegment.
  destruct (split text delimiter) as [|j rest] eqn:S;
    [now apply split_nonempty in S|].
  cbn [hd].
  destruct (JSON_parse (trim j)) as [v| |] eqn:P.
  - destruct v; try (rewrite (tryParse_parsed text j rest _ S P) in E;
                     discriminate).
    now right.
  - now left.
  - now apply JSON_parse_total in P.
Qed.

(** X5.  Trimming a first piece that [JSON.parse] accepts as it stands
    changes nothing: [parseJSON] on the trimmed piece returns the same
    value. *)
Theorem trim_then_parse (j : jsstring) (v : JSValue) :
  JSON_parse j = Parsed v -> parseJSON (trim j) = ret v.
Proof.
  intros P. unfold parseJSON. now rewrite (JSON_parse_trim j v P).
Qed.

(** The explanation of the [try] block: [undefined] without a
    delimiter, else the second piece, trimmed. *)
Lemma tryParse_explanation (text : jsstring) (out : SymptomAnalysisOutput) :
  tryParse text = ret out ->
  explanation out =
  match tl (split text delimiter) with
  | [] => JSUndefined
  | m :: _ => JSString (trim m)
  end.
Proof.
  unfold tryParse.
  destruct (split text delimiter) as [|j rest]; [discriminate|].
  cbn [map tl]. destruct (parseJSON (trim j)) as [e|v]; [discriminate|].
  cbn [bind]. destruct rest as [|m rest']; destruct v;
    try discriminate; now intros [= <-].
Qed.

(** X3.  When the [try] block returns, the explanation is [undefined]
    if the response holds no delimiter; otherwise it is a string that
    holds no delimiter and has no white space at either end. *)
Theorem explanation_on_try_path (text : jsstring)
  (out : SymptomAnalysisOutput) :
  tryParse text = ret out ->
  (includes text delimiter = false /\ explanation out = JSUndefined)
  \/ (includes text delimiter = true
      /\ exists m, explanation out = JSString m
                   /\ includes m delimiter = false
                   /\ trim m = m).
Proof.
  intros T. rewrite (tryParse_explanation text out T).
  pose proof (split_single delimiter text delimiter_nonempty) as S.
  pose proof (split_pieces_clean delimiter text delimiter_nonempty) as C.
  destruct (split text delimiter) as [|j [|m rest]]; cbn [tl] in *.
  - left. split; [now apply S|reflexivity].
  - left. split; [now apply S|reflexivity].
  - right. split.
    + destruct (includes text delimiter); [reflexivity|].
      pose proof (proj1 S eq_refl). discriminate.
    + exists (trim m). split; [reflexivity|]. split; [|apply trim_idem].
      apply trim_keeps_clean.
      inversion C as [|? ? _ C']. now inversion C'.
Qed.

Section WithCaseConversion.
Context {CC : CaseConversion}.

Lemma interpret_returns (text : jsstring) :
  exists out, interpret text = ret out.
Proof.
  unfold interpret. destruct (tryParse text) as [e|out]; cbn [try_catch].
  - now exists (fallback text).
  - now exists out.
Qed.

(** X2.  [analyzeSymptoms] rejects exactly when the service call
    rejects, and with the same error: whatever text the service returns,
    a result comes back. *)
Theorem analyzeSymptoms_rejects_iff
  (client : TextGenerationClient) (genAI : GoogleGenerativeAI)
  (input : SymptomAnalysisInput) (e : Exn) :
  analyzeSymptoms client genAI input = throw e
  <-> client (request genAI input) = throw e.
Proof.
  unfold analyzeSymptoms.
  destruct (client (request genAI input)) as [e'|text]; cbn [bind].
  - unfold throw. split; intros [= ->]; reflexivity.
  - destruct (interpret_returns text) as [out ->]. split; discriminate.
Qed.

(** X16.  On the fallback path the flags follow the keywords whatever
    their letter case: in a response of Basic Latin text, a word that
    lower-cases to serious or severe sets [isSerious], one that
    lower-cases to immediate or emergency sets [suggestImmediateAction],
    wherever it stands and whatever surrounds it. *)
Theorem fallback_keywords_any_case (a w b : jsstring) :
  forallb isASCII (a ++ w ++ b) = true ->
  JSON_parse (trim (jsonSegment (a ++ w ++ b))) = SyntaxError
  \/ JSON_parse (trim (jsonSegment (a ++ w ++ b))) = Parsed JSNull ->
  exists out,
    interpret (a ++ w ++ b) = ret out
    /\ explanation out = JSString (a ++ w ++ b)
    /\ (map lowerASCII w = js "serious" \/ map lowerASCII w = js "severe" ->
        isSerious out = JSBool true)
    /\ (map lowerASCII w = js "immediate"
        \/ map lowerASCII w = js "emergency" ->
        suggestImmediateAction out = JSBool true).
Proof.
  intros A P. destruct (tryParse_throws _ P) as [e E].
  exists (fallback (a ++ w ++ b)).
  split; [exact (interpret_thrown _ _ E)|]. split; [reflexivity|].
  unfold fallback. cbn [isSerious suggestImmediateAction].
  rewrite (toLowerCase_ascii _ A), !map_app.
  split; intros [W|W]; rewrite W, includes_app_intro;
    now rewrite ?orb_true_r.
Qed.

End WithCaseConversion.

(** X4.  The request is determined by the key and the symptoms, and
    determines them: the symptoms are spliced into the prompt as they
    are, so two inputs lead to the same request exactly when their
    symptoms are equal. *)
Theorem request_injective (g1 g2 : GoogleGenerativeAI)
  (i1 i2 : SymptomAnalysisInput) :
  request g1 i1 = request g2 i2
  <-> apiKey g1 = apiKey g2 /\ symptoms i1 = symptoms i2.
Proof.
  split.
  - intros H. split; [exact (f_equal req_apiKey H)|].
    pose proof (f_equal req_contents H) as P.
    unfold request in P. cbn [req_contents] in P.
    unfold prompt in P. apply app_inv_head in P.
    now apply app_inv_tail in P.
  - intros [K S]. unfold request, prompt. now rewrite K, S.
Qed.

End AnalyzerExtras.

(** ** More on the practitioner lookup *)

Module PractitionersExtras.
Import JSString JSStringFacts Practitioners Examples PractitionersFacts.

Section WithCaseConversion.
Context {CC : CaseConversion}.

(** The lookup has four possible results. *)
Lemma findPractitioners_range (input : FindPractitionersInput) :
  practitioners (findPractitioners input) = dublin
  \/ practitioners (findPractitioners input) = cork
  \/ practitioners (findPractitioners input) = galway
  \/ practitioners (findPractitioners input) = mixedSample.
Proof.
  unfold findPractitioners, pick. cbn [practitioners].
  destruct (includes (location input) (js "dublin")); [now left|].
  destruct (includes (location input) (js "cork")); [now right; left|].
  destruct (includes (location input) (js "galway")); [now right; right; left|].
  now right; right; right.
Qed.

(** X7.  Whatever the query, the result holds between three and five
    records, at least one of them a hospital, and every record is one of
    the ten of the three city lists, with a phone number that starts with
    the Irish country code. *)
Theorem findPractitioners_result_shape (input : FindPractitionersInput) :
  (3 <= List.length (practitioners (findPractitioners input)) <= 5)%nat
  /\ (exists p, In p (practitioners (findPractitioners input))
                /\ isHospital p = true)
  /\ (forall p, In p (practitioners (findPractitioners input)) ->
                In p (dublin ++ cork ++ galway)
                /\ startsWith (js "+353 ") (phone p) = true).
Proof.
  destruct (findPractitioners_range input) as [-> | [-> | [-> | ->]]].
  - split; [simpl; lia|]. split.
    + exists (at_ dublin 3). split; [simpl; tauto|reflexivity].
    + intros p H. unfold dublin in H. simpl in H.
      repeat (destruct H as [<- | H]; [split; [simpl; tauto|reflexivity]|]).
      contradiction.
  - split; [simpl; lia|]. split.
    + exists (at_ cork 2). split; [simpl; tauto|reflexivity].
    + intros p H. unfold cork in H. simpl in H.
      repeat (destruct H as [<- | H]; [split; [simpl; tauto|reflexivity]|]).
      contradiction.
  - split; [simpl; lia|]. split.
    + exists (at_ galway 2). split; [simpl; tauto|reflexivity].
    + intros p H. unfold galway in H. simpl in H.
      repeat (destruct H as [<- | H]; [split; [simpl; tauto|reflexivity]|]).
      contradiction.
  - split; [simpl; lia|]. split.
    + exists (at_ cork 2). split; [simpl; tauto|reflexivity].
    + intros p H. unfold mixedSample in H. simpl in H.
      repeat (destruct H as [<- | H]; [split; [simpl; tauto|reflexivity]|]).
      contradiction.
Qed.

(** X8.  A query of Basic Latin text that holds the word dublin, in any
    mix of upper and lower case and with anything around it, gets the
    Dublin group: also when it names Cork or Galway as well. *)
Theorem dublin_in_any_case (a w b : jsstring) :
  forallb isASCII (a ++ w ++ b) = true ->
  map lowerASCII w = js "dublin" ->
  practitioners (findPractitioners {| locationQuery := Some (a ++ w ++ b) |})
  = dublin.
Proof.
  intros A W. rewrite pick_of_query, (toLowerCase_ascii _ A).
  rewrite !map_app, W. unfold pick.
  now rewrite includes_app_intro.
Qed.

End WithCaseConversion.

End PractitionersExtras.

(** ** The symptom checker page *)

Module PageFacts.
Import JSString JSStringFacts JSON JSONFacts Analyzer Examples.
Import AnalyzerFacts StringExtras AnalyzerExtras SymptomCheckerPage.

(** *** [indexOf] and [substring] *)

Lemma indexOf_from_absent (sub s : jsstring) (i : Z) :
  includes s sub = false -> indexOf_from sub s i = (-1)%Z.
Proof.
  revert i. induction s as [|c s IH]; intros i H.
  - simpl in *. rewrite orb_false_r in H. now rewrite H.
  - apply includes_cons_false in H as [H1 H2].
    cbn [indexOf_from]. rewrite H1. now apply IH.
Qed.

Lemma indexOf_from_first (sub pre rest : jsstring) (i : Z) :
  sub <> [] ->
  includes (pre ++ removelast sub) sub = false ->
  indexOf_from sub (pre ++ sub ++ rest) i
  = (i + Z.of_nat (List.length pre))%Z.
Proof.
  intros Hsub. revert i. induction pre as [|c pre IH]; intros i H.
  - cbn [app List.length]. replace (i + Z.of_nat 0)%Z with i by lia.
    destruct (sub ++ rest) eqn:E; cbn [indexOf_from];
      rewrite <- E, startsWith_app; reflexivity.
  - change ((c :: pre) ++ removelast sub) with (c :: pre ++ removelast sub) in H.
    apply includes_cons_false in H as [H1 H2].
    change ((c :: pre) ++ sub ++ rest) with (c :: pre ++ sub ++ rest).
    cbn [indexOf_from].
    assert (E : startsWith sub (c :: pre ++ sub ++ rest) = false).
    { rewrite <- H1. rewrite (app_removelast_last 0 Hsub) at 2.
      rewrite <- app_assoc, app_assoc.
      apply (startsWith_app_long sub (c :: pre ++ removelast sub)).
      simpl. rewrite length_app, (length_removelast sub Hsub). lia. }
    rewrite E, (IH _ H2). cbn [List.length]. lia.
Qed.

Lemma substring_at (pre x : jsstring) :
  substring (pre ++ x) (Z.of_nat (List.length pre)) = x.
Proof.
  unfold substring. rewrite length_app.
  replace (Z.to_nat _) with (List.length pre) by lia.
  rewrite skipn_app, skipn_all, Nat.sub_diag. reflexivity.
Qed.

(** A prefix of [q ++ ...] read off [u ++ v] ends inside [u] or runs
    over into [v]. *)
Lemma startsWith_app_cases (q u v : jsstring) :
  startsWith q (u ++ v) = true ->
  startsWith q u = true
  \/ exists q2, q = u ++ q2 /\ q2 <> [] /\ startsWith q2 v = true.
Proof.
  revert u. induction q as [|x q IH]; intros u H; [now left|].
  destruct u as [|y u].
  - right. exists (x :: q). repeat split; [discriminate|exact H].
  - cbn [app startsWith] in *. apply andb_true_iff in H as [Hxy H].
    rewrite Hxy. destruct (IH u H) as [L|(q2 & -> & N & S)]; [now left|].
    right. exists q2. apply N.eqb_eq in Hxy. subst y. now repeat split.
Qed.

(** When the first code unit of [sub] does not come back in [sub], an
    occurrence cannot begin in a text without one and end in a following
    copy of [sub]. *)
Lemma no_straddle (h : codeunit) (tl pre : jsstring) :
  forallb (fun x => negb (x =? h)) tl = true ->
  includes pre (h :: tl) = false ->
  includes (pre ++ removelast (h :: tl)) (h :: tl) = false.
Proof.
  intros Hh. induction pre as [|c pre IH]; intros H.
  - apply includes_short. rewrite (length_removelast (h :: tl)) by discriminate.
    simpl. lia.
  - apply includes_cons_false in H as [H1 H2].
    change ((c :: pre) ++ removelast (h :: tl))
      with ((c :: pre) ++ removelast (h :: tl)).
    cbn [app includes]. rewrite (IH H2), orb_false_r.
    destruct (startsWith (h :: tl) (c :: pre ++ removelast (h :: tl))) eqn:E;
      [|reflexivity].
    exfalso.
    destruct (startsWith_app_cases (h :: tl) (c :: pre) _ E)
      as [L|(q2 & Q & N & S)]; [congruence|].
    injection Q as <- Q.
    destruct q2 as [|x q2]; [congruence|].
    destruct tl as [|t0 tl']; [now destruct pre|].
    cbn [removelast startsWith] in S.
    apply andb_true_iff in S as [S _]. apply N.eqb_eq in S. subst x.
    rewrite forallb_forall in Hh.
    assert (I : In h (t0 :: tl')) by (rewrite Q; apply in_or_app; right; now left).
    apply Hh in I. now rewrite N.eqb_refl in I.
Qed.

Lemma likelyCause_first (pre : jsstring) :
  includes pre likelyCause = false ->
  includes (pre ++ removelast likelyCause) likelyCause = false.
Proof. apply (no_straddle 35 (js " Likely Cause")). reflexivity. Qed.

(** *** [parseExplanation] *)

Lemma parseExplanation_other (v : JSValue) :
  isString v = false -> parseExplanation v = ret v.
Proof.
  intros H. unfold parseExplanation.
  destruct v; try reflexivity; try discriminate.
  cbn [explanation_indexOf bind ret].
  destruct (arrayIndexOf items likelyCause 0 =? -1)%Z; reflexivity.
Qed.

Lemma parseExplanation_absent (s : jsstring) :
  includes s likelyCause = false ->
  parseExplanation (JSString s) = ret (JSString s).
Proof.
  intros H. unfold parseExplanation.
  cbn [explanation_indexOf bind ret]. unfold indexOf.
  now rewrite (indexOf_from_absent _ _ _ H).
Qed.

Lemma parseExplanation_present (pre rest : jsstring) :
  includes pre likelyCause = false ->
  parseExplanation (JSString (pre ++ likelyCause ++ rest))
  = ret (JSString (likelyCause ++ rest)).
Proof.
  intros H. unfold parseExplanation.
  cbn [explanation_indexOf bind ret]. unfold indexOf.
  rewrite (indexOf_from_first likelyCause pre rest 0)
    by (discriminate || now apply likelyCause_first).
  replace (0 + Z.of_nat (List.length pre) =? -1)%Z with false
    by (symmetry; apply Z.eqb_neq; lia).
  cbn [explanation_substring try_catch ret]. unfold ret.
  do 2 f_equal. apply (substring_at pre (likelyCause ++ rest)).
Qed.

(** X9.  [parseExplanation] never throws.  A value that is not a string
    comes back as it is, [undefined] included; a string without the
    heading comes back as it is; a string with it comes back from its
    first heading on, what stands before being dropped. *)
Theorem parseExplanation_spec :
  (forall v, isString v = false -> parseExplanation v = ret v)
  /\ (forall s, includes s likelyCause = false ->
                parseExplanation (JSString s) = ret (JSString s))
  /\ (forall pre rest,
         includes pre likelyCause = false ->
         parseExplanation (JSString (pre ++ likelyCause ++ rest))
         = ret (JSString (likelyCause ++ rest))).
Proof.
  split; [exact parseExplanation_other|].
  split; [exact parseExplanation_absent|exact parseExplanation_present].
Qed.

(** Every string is of one of the two kinds. *)
Lemma heading_cases (s : jsstring) :
  includes s likelyCause = false
  \/ exists pre rest, s = pre ++ likelyCause ++ rest
                      /\ includes pre likelyCause = false.
Proof.
  destruct (includes s likelyCause) eqn:E; [right|now left].
  destruct (first_occurrence likelyCause s) as (pre & rest & -> & H);
    [discriminate|exact E|].
  exists pre, rest. split; [reflexivity|].
  rewrite <- (app_nil_l (pre ++ _)), app_assoc, <- app_assoc in H.
  exact (includes_part_false [] pre _ _ H).
Qed.

(** X10.  [parseExplanation] is idempotent: applied to its own result it
    returns it unchanged. *)
Theorem parseExplanation_idempotent (v r : JSValue) :
  parseExplanation v = ret r -> parseExplanation r = ret r.
Proof.
  destruct (isString v) eqn:S.
  - destruct v; try discriminate.
    destruct (heading_cases s) as [H|(pre & rest & -> & H)].
    + rewrite (parseExplanation_absent s H). intros [= <-].
      exact (parseExplanation_absent s H).
    + rewrite (parseExplanation_present pre rest H). intros [= <-].
      exact (parseExplanation_present [] rest eq_refl).
  - rewrite (parseExplanation_other v S). intros [= <-].
    exact (parseExplanation_other v S).
Qed.

Section WithCaseConversion.
Context {CC : CaseConversion}.

(** X11.  A response that goes to the fallback and holds the heading is
    displayed from its first heading on: a verdict in front of the
    markdown that was not separated by the delimiter is not shown. *)
Theorem fallback_display (pre rest : jsstring) :
  includes pre likelyCause = false ->
  JSON_parse (trim (jsonSegment (pre ++ likelyCause ++ rest))) = SyntaxError
  \/ JSON_parse (trim (jsonSegment (pre ++ likelyCause ++ rest)))
     = Parsed JSNull ->
  exists out,
    interpret (pre ++ likelyCause ++ rest) = ret out
    /\ explanation out = JSString (pre ++ likelyCause ++ rest)
    /\ displayed out = ret (JSString (likelyCause ++ rest)).
Proof.
  intros H P. destruct (tryParse_throws _ P) as [e E].
  exists (fallback (pre ++ likelyCause ++ rest)).
  split; [exact (interpret_thrown _ _ E)|]. split; [reflexivity|].
  exact (parseExplanation_present pre rest H).
Qed.

(** X12.  A response that is a JSON object and nothing else leaves the
    page without text to display: the explanation handed to the renderer
    is [undefined]. *)
Theorem json_only_displays_nothing (text : jsstring)
  (props : list (jsstring * JSValue)) :
  includes text delimiter = false ->
  JSON_parse text = Parsed (JSObject props) ->
  exists out,
    interpret text = ret out /\ displayed out = ret JSUndefined.
Proof.
  intros Hd P. apply JSON_parse_trim in P.
  eexists. split.
  - apply interpret_parsed.
    apply (tryParse_parsed text text [] (JSObject props));
      [now apply split_none|exact P|discriminate].
  - reflexivity.
Qed.

(** *** [onSubmit] *)

Lemma onSubmit_call_eq (client : TextGenerationClient)
  (genAI : GoogleGenerativeAI) (data : jsstring) (st : PageState) :
  onSubmit_call client genAI data st
  = text <- client (request genAI
                      {| symptoms := data; photoDataUri := None |}) ;;
    interpret text.
Proof. reflexivity. Qed.

(** What [onSubmit] leaves behind, by the outcome of the service call. *)
Lemma onSubmit_effect (client : TextGenerationClient)
  (genAI : GoogleGenerativeAI) (data : jsstring) (st : PageState) :
  isLoading (onSubmit client genAI data st) = false
  /\ imagePreview (onSubmit client genAI data st) = imagePreview st
  /\ (forall text,
         client (request genAI {| symptoms := data; photoDataUri := None |})
         = ret text ->
         exists out,
           interpret text = ret out
           /\ analysis (onSubmit client genAI data st) = Some out
           /\ toasts (onSubmit client genAI data st) = toasts st
           /\ consoleErrors (onSubmit client genAI data st)
              = consoleErrors st)
  /\ (forall e,
         client (request genAI {| symptoms := data; photoDataUri := None |})
         = throw e ->
         analysis (onSubmit client genAI data st) = None
         /\ toasts (onSubmit client genAI data st)
            = toasts st ++ [analysisFailed]
         /\ consoleErrors (onSubmit client genAI data st)
            = consoleErrors st ++ [e]).
Proof.
  unfold onSubmit. rewrite onSubmit_call_eq.
  destruct (client _) as [e|text]; cbn [bind].
  - split; [reflexivity|]. split; [reflexivity|]. split.
    + intros text H. discriminate H.
    + intros e' [= <-]. now repeat split.
  - destruct (interpret_returns text) as [out E]. rewrite E.
    split; [reflexivity|]. split; [reflexivity|]. split.
    + intros text' [= <-]. exists out. now repeat split.
    + intros e H. discriminate H.
Qed.


(** *** Invariants of the page *)

Lemma runEvents_snoc (genAI : GoogleGenerativeAI) (evs : list Event)
  (ev : Event) :
  runEvents genAI (evs ++ [ev]) = step genAI (runEvents genAI evs) ev.
Proof. unfold runEvents. now rewrite fold_left_app. Qed.

(** What holds of the state after any sequence of events. *)
Definition invariant (genAI : GoogleGenerativeAI) (evs : list Event)
  (st : PageState) : Prop :=
  isLoading st = false
  /\ (forall u, imagePreview st = Some u ->
        exists file rest,
          In (ChangeImage (file :: rest)) evs
          /\ size file <= 10485760
          /\ readResult file = Some u)
  /\ (forall out, analysis st = Some out ->
        exists client s text,
          In (SubmitForm client s) evs
          /\ (10 <= List.length s)%nat
          /\ client (request genAI
                       {| symptoms := s; photoDataUri := None |}) = ret text
          /\ interpret text = ret out)
  /\ Forall (fun t => t = fileTooLarge \/ t = analysisFailed) (toasts st).

Lemma invariant_weaken (genAI : GoogleGenerativeAI) (evs : list Event)
  (ev : Event) (st : PageState) :
  invariant genAI evs st -> invariant genAI (evs ++ [ev]) st.
Proof.
  intros (L & P & A & T).
  split; [exact L|]. split; [|split; [|exact T]].
  - intros u H. destruct (P u H) as (f & r & I & R).
    exists f, r. split; [apply in_or_app; now left|exact R].
  - intros out H. destruct (A out H) as (c & s & x & I & R).
    exists c, s, x. split; [apply in_or_app; now left|exact R].
Qed.

Lemma invariant_holds (genAI : GoogleGenerativeAI) (evs : list Event) :
  invariant genAI evs (runEvents genAI evs).
Proof.
  induction evs as [|ev evs IH] using rev_ind.
  - split; [reflexivity|]. split; [|split]; try (intros ? H; discriminate H).
    constructor.
  - rewrite runEvents_snoc.
    pose proof (invariant_weaken genAI evs ev _ IH) as W.
    set (st := runEvents genAI evs) in *. clearbody st.
    destruct ev as [files|client s]; cbn [step].
    + unfold handleImageChange. destruct files as [|file rest]; [exact W|].
      destruct W as (L & P & A & T).
      destruct (N.ltb_spec (10 * 1024 * 1024) (size file)) as [Big|Ok].
      * split; [exact L|]. split; [exact P|]. split; [exact A|].
        cbn [toast toasts]. apply Forall_app. split; [exact T|].
        constructor; [now left|constructor].
      * split; [exact L|]. split; [|split; [exact A|exact T]].
        cbn [onloadend setImagePreview imagePreview]. intros u H.
        exists file, rest. split; [apply in_or_app; right; now left|].
        split; [exact Ok|exact H].
    + unfold handleSubmit, symptomCheckerSchema.
      destruct (Nat.ltb_spec (List.length s) 10) as [Short|Long];
        cbn [fst]; [exact W|].
      destruct W as (L & P & A & T).
      destruct (onSubmit_effect client genAI s st) as (L' & P' & Ok & Ko).
      split; [exact L'|]. split; [|split].
      * rewrite P'. exact P.
      * destruct (client (request genAI
                            {| symptoms := s; photoDataUri := None |}))
          as [e|text] eqn:C.
        -- destruct (Ko e eq_refl) as (An & _). rewrite An.
           intros out H. discriminate H.
        -- destruct (Ok text eq_refl) as (out & E & An & _). rewrite An.
           intros out' [= <-]. exists client, s, text.
           split; [apply in_or_app; right; now left|].
           split; [exact Long|]. split; [exact C|exact E].
      * destruct (client (request genAI
                            {| symptoms := s; photoDataUri := None |}))
          as [e|text] eqn:C.
        -- destruct (Ko e eq_refl) as (_ & To & _). rewrite To.
           apply Forall_app. split; [exact T|].
           constructor; [now right|constructor].
        -- destruct (Ok text eq_refl) as (out & _ & _ & To & _).
           rewrite To. exact T.
Qed.

(** X14.  Whatever files were picked and forms submitted, an image
    preview on the page is the data URL of a picked file of at most
    10 MiB (10485760 bytes) whose read succeeded. *)
Theorem preview_within_limit (genAI : GoogleGenerativeAI)
  (evs : list Event) (u : jsstring) :
  imagePreview (runEvents genAI evs) = Some u ->
  exists file rest,
    In (ChangeImage (file :: rest)) evs
    /\ size file <= 10485760
    /\ readResult file = Some u.
Proof. apply (invariant_holds genAI evs). Qed.

(** X15.  Whatever files were picked and forms submitted, between events
    the loading flag is off, and an analysis on the page is what
    [interpret] made of the service's answer to a submitted symptoms text
    of at least ten code units. *)
Theorem analysis_from_valid_submit (genAI : GoogleGenerativeAI)
  (evs : list Event) :
  isLoading (runEvents genAI evs) = false
  /\ forall out,
       analysis (runEvents genAI evs) = Some out ->
       exists client s text,
         In (SubmitForm client s) evs
         /\ (10 <= List.length s)%nat
         /\ client (request genAI
                      {| symptoms := s; photoDataUri := None |}) = ret text
         /\ interpret text = ret out.
Proof.
  destruct (invariant_holds genAI evs) as (L & _ & A & _). now split.
Qed.

End WithCaseConversion.

End PageFacts.

(** ** The further properties on the example inputs *)

Module ExtraExamples.
Import JSString JSON Analyzer Practitioners Examples SymptomCheckerPage.
Import MoreExamples.

(** X3 on the response with a horizontal rule. *)
Lemma explanation_on_try_path_example :
  (includes ruledResponse delimiter = false
   /\ explanation ruledOutput = JSUndefined)
  \/ (includes ruledResponse delimiter = true
      /\ exists m, explanation ruledOutput = JSString m
                   /\ includes m delimiter = false
                   /\ trim m = m).
Proof.
  exact (AnalyzerExtras.explanation_on_try_path ruledResponse ruledOutput
           eq_refl).
Defined.

(** X5 on the verdict segment, which ends in a line feed. *)
Lemma trim_then_parse_example :
  parseJSON (trim verdictSegment) = ret (JSObject verdictProps).
Proof.
  exact (AnalyzerExtras.trim_then_parse verdictSegment (JSObject verdictProps)
           eq_refl).
Defined.

(** X8 on a query that names Dublin in capitals, and Cork. *)
Lemma dublin_in_any_case_example :
  practitioners
    (findPractitioners (CC := basicLatin) (query "Clinic near DUBLIN or Cork"))
  = dublin.
Proof.
  apply (PractitionersExtras.dublin_in_any_case (CC := basicLatin)
           (js "Clinic near ") (js "DUBLIN") (js " or Cork"));
    reflexivity.
Defined.

(** X10 on the unseparated response. *)
Lemma parseExplanation_idempotent_example :
  parseExplanation (JSString (likelyCause ++ unseparatedMarkdown))
  = ret (JSString (likelyCause ++ unseparatedMarkdown)).
Proof.
  apply (PageFacts.parseExplanation_idempotent
           (JSString (unseparatedVerdict ++ likelyCause ++ unseparatedMarkdown))).
  vm_compute. reflexivity.
Defined.

(** X11 on the unseparated response. *)
Lemma fallback_display_example :
  exists out,
    interpret (CC := basicLatin)
      (unseparatedVerdict ++ likelyCause ++ unseparatedMarkdown) = ret out
    /\ explanation out
       = JSString (unseparatedVerdict ++ likelyCause ++ unseparatedMarkdown)
    /\ displayed out = ret (JSString (likelyCause ++ unseparatedMarkdown)).
Proof.
  apply (PageFacts.fallback_display (CC := basicLatin)
           unseparatedVerdict unseparatedMarkdown).
  - vm_compute. reflexivity.
  - left. vm_compute. reflexivity.
Defined.

(** X12 on the response that is only the verdict. *)
Lemma json_only_displays_nothing_example :
  exists out,
    interpret (CC := basicLatin) verdictJSON = ret out
    /\ displayed out = ret JSUndefined.
Proof.
  apply (PageFacts.json_only_displays_nothing (CC := basicLatin)
           verdictJSON verdictProps); vm_compute; reflexivity.
Defined.

(** X14 after one small photo was picked. *)
Lemma preview_within_limit_example :
  exists file rest,
    In (ChangeImage (file :: rest)) [ChangeImage [smallPhoto]]
    /\ size file <= 10485760
    /\ readResult file = Some (js "data:image/png;base64,iVBORw0KGgo=").
Proof.
  exact (PageFacts.preview_within_limit (CC := basicLatin) exampleGenAI
           [ChangeImage [smallPhoto]] _ eq_refl).
Defined.

(** X16 on a response in capitals that is no JSON. *)
Lemma fallback_keywords_any_case_example :
  exists out,
    interpret (CC := basicLatin) (js "NOT AN EMERGENCY, rest at home") = ret out
    /\ explanation out = JSString (js "NOT AN EMERGENCY, rest at home")
    /\ (map lowerASCII (js "EMERGENCY") = js "serious"
        \/ map lowerASCII (js "EMERGENCY") = js "severe" ->
        isSerious out = JSBool true)
    /\ (map lowerASCII (js "EMERGENCY") = js "immediate"
        \/ map lowerASCII (js "EMERGENCY") = js "emergency" ->
        suggestImmediateAction out = JSBool true).
Proof.
  apply (AnalyzerExtras.fallback_keywords_any_case (CC := basicLatin)
           (js "NOT AN ") (js "EMERGENCY") (js ", rest at home")).
  - reflexivity.
  - left. vm_compute. reflexivity.
Defined.

End ExtraExamples.
